(** * Browser extension: settings store and bulk-save workflow

    A shallow embedding of [utils/settings.ts] (the zod schema, the
    [usePluginSettings] hook, [getPluginSettings] and
    [subscribeToSettingsChanges]) and of [handleBulkSave] in
    [BulkSavePage.tsx], with the properties the specification states
    about them.

    Conventions of the embedding:
    - a value held by [chrome.storage.sync] is a JSON value; a JS object
      is a finite map from keys to JSON values, so a key is either
      present with a JSON value or absent ([undefined] cannot be stored);
    - a JS number is an integer [Z]; the only operation the settings code
      performs on one is the comparison [>= 0] of the schema;
    - the percentage computed by the bulk-save loop is an exact rational
      [Q]; the source computes it in double precision, whose division and
      multiplication round monotonically and give [n / n * 100 = 100]
      exactly;
    - [await]ed storage calls are steps of a state monad over the store,
      which also logs every [STORAGE.set]. *)

From stdpp Require Import gmap strings list fin_maps pretty.
From Stdlib Require Import ZArith QArith Sorted.

#[local] Set Warnings "-register-all".
#[local] Open Scope Z_scope.

(** ** JSON values *)

Inductive json :=
| JNull
| JBool (b : bool)
| JNum (n : Z)
| JStr (s : string)
| JArr (l : list json)
| JObj (m : gmap string json).

(** ** The settings record, [z.infer<typeof zSettingsSchema>] *)

Inductive Theme := Light | Dark | System.

Record Settings := mkSettings {
  apiKey : string;
  apiKeyId : option string;
  address : string;
  autoSave : bool;
  closeTabsOnBulkSave : option bool;
  theme : Theme;
  showCountBadge : bool;
  useBadgeCache : bool;
  badgeCacheExpireMs : Z;
  customHeaders : gmap string string
}.

Definition DEFAULT_BADGE_CACHE_EXPIRE_MS : Z := 60 * 60 * 1000.
Definition DEFAULT_SHOW_COUNT_BADGE : bool := false.

Definition DEFAULT_SETTINGS : Settings := {|
  apiKey := "";
  apiKeyId := None;
  address := "https://cloud.karakeep.app";
  theme := System;
  showCountBadge := DEFAULT_SHOW_COUNT_BADGE;
  useBadgeCache := true;
  badgeCacheExpireMs := DEFAULT_BADGE_CACHE_EXPIRE_MS;
  customHeaders := ∅;
  autoSave := false;
  closeTabsOnBulkSave := Some false
|}.

(** ** The zod combinators the schema uses

    A field parser receives the value found under the key, [None] when
    the key is absent, and fails with [None]. *)

Module Zod.

Definition string_ (v : json) : option string :=
  match v with JStr s => Some s | _ => None end.

Definition boolean (v : json) : option bool :=
  match v with JBool b => Some b | _ => None end.

(** [z.number().min(0)] *)
Definition number_min0 (v : json) : option Z :=
  match v with
  | JNum n => if decide (0 ≤ n) then Some n else None
  | _ => None
  end.

(** [z.enum(["light", "dark", "system"])] *)
Definition enum_theme (v : json) : option Theme :=
  match v with
  | JStr s =>
      if decide (s = "light") then Some Light
      else if decide (s = "dark") then Some Dark
      else if decide (s = "system") then Some System
      else None
  | _ => None
  end.

(** [z.record(z.string(), z.string())]: an object all of whose values
    are strings. *)
Definition record_string (v : json) : option (gmap string string) :=
  match v with
  | JObj h =>
      if decide (map_Forall (λ _ x, is_Some (string_ x)) h)
      then Some (omap string_ h)
      else None
  | _ => None
  end.

(** A key of the object without [.optional()] or [.default()]. *)
Definition required {A} (p : json → option A) (f : option json) : option A :=
  f ≫= p.

(** [.optional()]: an absent key parses to [undefined]. *)
Definition optional {A} (p : json → option A) (f : option json)
  : option (option A) :=
  match f with
  | None => Some None
  | Some v => Some <$> p v
  end.

(** [.default(d)], also after [.optional()]: an absent key parses to
    [d]; the defaults of this schema all satisfy their inner type. *)
Definition default {A} (p : json → option A) (d : A) (f : option json)
  : option A :=
  match f with
  | None => Some d
  | Some v => p v
  end.

End Zod.

Definition theme_name (t : Theme) : string :=
  match t with Light => "light" | Dark => "dark" | System => "system" end.

(** [zSettingsSchema.safeParse(v)]: [Some data] on success, [None] when
    [success] is false.  [v = None] is [undefined].  Unknown keys are
    stripped, as [z.object] does by default. *)
Definition safeParse (v : option json) : option Settings :=
  match v with
  | Some (JObj o) =>
      k ← Zod.required Zod.string_ (o !! "apiKey");
      kid ← Zod.optional Zod.string_ (o !! "apiKeyId");
      addr ← Zod.default Zod.string_ "https://cloud.karakeep.app" (o !! "address");
      auto ← Zod.default Zod.boolean false (o !! "autoSave");
      close ← Zod.optional Zod.boolean (o !! "closeTabsOnBulkSave");
      th ← Zod.default Zod.enum_theme System (o !! "theme");
      badge ← Zod.default Zod.boolean DEFAULT_SHOW_COUNT_BADGE (o !! "showCountBadge");
      cache ← Zod.default Zod.boolean true (o !! "useBadgeCache");
      expire ← Zod.default Zod.number_min0 DEFAULT_BADGE_CACHE_EXPIRE_MS
                 (o !! "badgeCacheExpireMs");
      headers ← Zod.default Zod.record_string ∅ (o !! "customHeaders");
      Some {| apiKey := k; apiKeyId := kid; address := addr; autoSave := auto;
              closeTabsOnBulkSave := close; theme := th;
              showCountBadge := badge; useBadgeCache := cache;
              badgeCacheExpireMs := expire; customHeaders := headers |}
  | _ => None
  end.

(** ** A settings record as the JS object handed to [STORAGE.set]

    A field holding [undefined] has no key in the stored object. *)

Definition put_opt (k : string) (v : option json) (o : gmap string json)
  : gmap string json :=
  match v with Some x => <[k := x]> o | None => o end.

Definition toObject (s : Settings) : gmap string json :=
  <["apiKey" := JStr (apiKey s)]>
  (put_opt "apiKeyId" (JStr <$> apiKeyId s)
  (<["address" := JStr (address s)]>
  (<["autoSave" := JBool (autoSave s)]>
  (put_opt "closeTabsOnBulkSave" (JBool <$> closeTabsOnBulkSave s)
  (<["theme" := JStr (theme_name (theme s))]>
  (<["showCountBadge" := JBool (showCountBadge s)]>
  (<["useBadgeCache" := JBool (useBadgeCache s)]>
  (<["badgeCacheExpireMs" := JNum (badgeCacheExpireMs s)]>
  (<["customHeaders" := JObj (JStr <$> customHeaders s)]> ∅))))))))).

Definition toJson (s : Settings) : json := JObj (toObject s).

(** ** [chrome.storage.sync] as a state monad *)

Record Storage := mkStorage {
  stored : option json;      (* the value under the key "settings" *)
  set_log : list json        (* every STORAGE.set so far, oldest first *)
}.

Definition Async (A : Type) : Type := Storage → A * Storage.

#[global] Instance Async_ret : MRet Async := λ A a st, (a, st).

#[global] Instance Async_bind : MBind Async :=
  λ A B k m st, let (a, st') := m st in k a st'.

(** [(await STORAGE.get("settings")).settings] *)
Definition STORAGE_get : Async (option json) := λ st, (stored st, st).

(** [await STORAGE.set({ settings: v })] *)
Definition STORAGE_set (v : json) : Async unit :=
  λ st, (tt, {| stored := Some v; set_log := set_log st ++ [v] |}).

(** ** [getPluginSettings] *)

(** The own enumerable properties of a value that passes
    [storedSettings && typeof storedSettings === "object"]: an object, or
    an array (whose properties are its indices).  [null] is falsy and
    every other JSON value has another [typeof]. *)
Definition array_entries (l : list json) : gmap string json :=
  list_to_map (imap (λ i x, (pretty i, x)) l).

Definition truthy_object (v : option json) : option (gmap string json) :=
  match v with
  | Some (JObj o) => Some o
  | Some (JArr l) => Some (array_entries l)
  | _ => None
  end.

(** [{ closeTabsOnBulkSave: false, ...data }]: a key of [data] wins. *)
Definition enrich (data : Settings) : Settings :=
  {| apiKey := apiKey data; apiKeyId := apiKeyId data;
     address := address data; autoSave := autoSave data;
     closeTabsOnBulkSave :=
       Some (default false (closeTabsOnBulkSave data));
     theme := theme data; showCountBadge := showCountBadge data;
     useBadgeCache := useBadgeCache data;
     badgeCacheExpireMs := badgeCacheExpireMs data;
     customHeaders := customHeaders data |}.

(** [{ ...DEFAULT_SETTINGS, ...storedSettings }]: stored keys win. *)
Definition mergeWithDefaults (o : gmap string json) : gmap string json :=
  o ∪ toObject DEFAULT_SETTINGS.

Definition getPluginSettings : Async Settings :=
  storedSettings ← STORAGE_get;
  match safeParse storedSettings with
  | Some data =>
      match closeTabsOnBulkSave data with
      | None =>
          let enriched := enrich data in
          STORAGE_set (toJson enriched);;
          mret enriched
      | Some _ => mret data
      end
  | None =>
      match truthy_object storedSettings with
      | Some o =>
          let mergedSettings := mergeWithDefaults o in
          match safeParse (Some (JObj mergedSettings)) with
          | Some mergedData =>
              STORAGE_set (JObj mergedSettings);;
              mret mergedData
          | None => mret DEFAULT_SETTINGS
          end
      | None => mret DEFAULT_SETTINGS
      end
  end.

(** Running an asynchronous computation against a store. *)
Definition result {A} (m : Async A) (st : Storage) : A := (m st).1.
Definition after {A} (m : Async A) (st : Storage) : Storage := (m st).2.

(** ** The [usePluginSettings] hook *)

(** [chrome.storage.StorageChange]; a removed key has no [newValue]. *)
Record StorageChange := mkChange {
  oldValue : option json;
  newValue : option json
}.

(** The two [React.useState] cells of the hook. *)
Record Hook := mkHook {
  settings : Settings;
  isInit : bool
}.

Definition useState_initial : Hook :=
  {| settings := DEFAULT_SETTINGS; isInit := false |}.

(** The [.then] callback of the effect's [getPluginSettings()]. *)
Definition init_resolved (s : Settings) (h : Hook) : Hook :=
  {| settings := s; isInit := true |}.

(** The hook's [onChange] listener. *)
Definition onChange (changes : gmap string StorageChange) (h : Hook) : Hook :=
  match changes !! "settings" with
  | None => h
  | Some ch =>
      match safeParse (newValue ch) with
      | Some data => {| settings := data; isInit := isInit h |}
      | None => h
      end
  end.

(** [setSettings]: applies the updater to the hook's own [settings] cell
    and stores the result. *)
Definition setSettings (s : Settings → Settings) (h : Hook) : Async unit :=
  let newVal := s (settings h) in
  STORAGE_set (toJson newVal).

(** What reaches the hook after it is mounted. *)
Inductive HookEvent :=
| Resolved (s : Settings)                          (* the initial read *)
| Changed (changes : gmap string StorageChange).   (* a storage event *)

Definition hook_step (h : Hook) (e : HookEvent) : Hook :=
  match e with
  | Resolved s => init_resolved s h
  | Changed changes => onChange changes h
  end.

Definition hook_after (events : list HookEvent) : Hook :=
  foldl hook_step useState_initial events.

(** The record most recently handed to the hook, looking back from the
    latest event: the value of the initial read, or the parsed new value
    of a change of the key that passes the schema; the default record
    when there is none. *)
Fixpoint latest_installed (newest_first : list HookEvent) : Settings :=
  match newest_first with
  | [] => DEFAULT_SETTINGS
  | Resolved s :: _ => s
  | Changed changes :: older =>
      match changes !! "settings" ≫= (λ ch, safeParse (newValue ch)) with
      | Some data => data
      | None => latest_installed older
      end
  end.

(** ** [subscribeToSettingsChanges]

    The listener it registers, as the argument the callback is invoked
    with; [None] when the callback is not invoked. *)
Definition subscriber_listener (changes : gmap string StorageChange)
  : option Settings :=
  match changes !! "settings" with
  | None => None
  | Some ch =>
      match safeParse (newValue ch) with
      | Some data => Some data
      | None => Some DEFAULT_SETTINGS
      end
  end.

(** Every defaultable field of the record holds a value.  The record
    type already gives the fields with a schema default a value;
    [closeTabsOnBulkSave] is the one that can be [undefined]. *)
Definition fully_defaulted (s : Settings) : Prop :=
  is_Some (closeTabsOnBulkSave s) ∧
  ∀ k, k ∈ ["address"; "autoSave"; "closeTabsOnBulkSave"; "theme";
            "showCountBadge"; "useBadgeCache"; "badgeCacheExpireMs";
            "customHeaders"] → is_Some (toObject s !! k).

(** ** Predicates and values used by the statements *)

(** The schema, field by field. *)
Record parses (o : gmap string json) (d : Settings) : Prop := {
  p_apiKey : Zod.required Zod.string_ (o !! "apiKey") = Some (apiKey d);
  p_apiKeyId : Zod.optional Zod.string_ (o !! "apiKeyId") = Some (apiKeyId d);
  p_address :
    Zod.default Zod.string_ "https://cloud.karakeep.app" (o !! "address")
    = Some (address d);
  p_autoSave : Zod.default Zod.boolean false (o !! "autoSave") = Some (autoSave d);
  p_close :
    Zod.optional Zod.boolean (o !! "closeTabsOnBulkSave")
    = Some (closeTabsOnBulkSave d);
  p_theme : Zod.default Zod.enum_theme System (o !! "theme") = Some (theme d);
  p_badge :
    Zod.default Zod.boolean DEFAULT_SHOW_COUNT_BADGE (o !! "showCountBadge")
    = Some (showCountBadge d);
  p_cache : Zod.default Zod.boolean true (o !! "useBadgeCache") = Some (useBadgeCache d);
  p_expire :
    Zod.default Zod.number_min0 DEFAULT_BADGE_CACHE_EXPIRE_MS
      (o !! "badgeCacheExpireMs") = Some (badgeCacheExpireMs d);
  p_headers :
    Zod.default Zod.record_string ∅ (o !! "customHeaders") = Some (customHeaders d)
}.

(** The three ways a read ends. *)
Inductive read_outcome (st : Storage) : Settings → Storage → Prop :=
| read_valid d :
    safeParse (stored st) = Some d → is_Some (closeTabsOnBulkSave d) →
    read_outcome st d st
| read_backfilled d :
    safeParse (stored st) = Some d → closeTabsOnBulkSave d = None →
    read_outcome st (enrich d)
      {| stored := Some (toJson (enrich d));
         set_log := set_log st ++ [toJson (enrich d)] |}
| read_merged o d :
    safeParse (stored st) = None → truthy_object (stored st) = Some o →
    safeParse (Some (JObj (mergeWithDefaults o))) = Some d →
    read_outcome st d
      {| stored := Some (JObj (mergeWithDefaults o));
         set_log := set_log st ++ [JObj (mergeWithDefaults o)] |}
| read_fallback :
    safeParse (stored st) = None →
    (∀ o, truthy_object (stored st) = Some o →
          safeParse (Some (JObj (mergeWithDefaults o))) = None) →
    read_outcome st DEFAULT_SETTINGS st.


(** A change of the key whose new value is a valid record written
    without the bulk-save preference. *)
Definition legacy_record : json := JObj {[ "apiKey" := JStr "k" ]}.

(** What the schema makes of [legacy_record]. *)
Definition legacy_parsed : Settings := {|
  apiKey := "k"; apiKeyId := None; address := "https://cloud.karakeep.app";
  autoSave := false; closeTabsOnBulkSave := None; theme := System;
  showCountBadge := false; useBadgeCache := true;
  badgeCacheExpireMs := 3600000; customHeaders := ∅ |}.

Definition legacy_change : gmap string StorageChange :=
  {[ "settings" := {| oldValue := None; newValue := Some legacy_record |} ]}.

(** A change of the key whose new value does not pass the schema. *)
Definition invalid_change : gmap string StorageChange :=
  {[ "settings" := {| oldValue := None;
                      newValue := Some (JObj {[ "apiKey" := JNum 5 ]}) |} ]}.

(** A record as a configured installation stores it. *)
Definition configured : Settings := {|
  apiKey := "k"; apiKeyId := None; address := "https://cloud.karakeep.app";
  autoSave := false; closeTabsOnBulkSave := Some false; theme := System;
  showCountBadge := false; useBadgeCache := true;
  badgeCacheExpireMs := 3600000; customHeaders := ∅ |}.

(** ** [handleBulkSave] of the bulk-save page *)

Module BulkSave.

(** The fields of [chrome.tabs.Tab] the page reads. *)
Record Tab := mkTab {
  id : option Z;
  url : option string;
  title : option string
}.

Inductive SaveType := all | window.

(** The [bulkSaveStatus] cell. *)
Record BulkSaveStatus := mkStatus {
  isActive : bool;
  progress : Q;
  total : nat;
  completed : nat;
  errors : list string;
  saveType : option SaveType
}.

(** How one [createBookmark] call inside the [try] block ends: through
    its [onSuccess] callback, through its [onError] callback, or by an
    exception that reaches the [catch] ([None] when the thrown value is
    not an [Error]). *)
Inductive Outcome :=
| OnSuccess
| OnError (message : string)
| Thrown (message : option string).

(** What the handler does to the page and to the host, in order. *)
Inductive Effect :=
| SetBulkSaveStatus (s : BulkSaveStatus)
| SetError (e : option string)
| RemoveTabs (tabIds : list Z)     (* chrome.tabs.remove(tabIds, cb) *)
| RemoveTab (tabId : Z)            (* chrome.tabs.remove(tabId, cb) *)
| CloseWindowLater.                (* setTimeout(window.close, 700) *)

(** The page while the handler runs: the status cell and the effects
    performed so far. *)
Record Run := mkRun {
  status : BulkSaveStatus;
  trace : list Effect
}.

Definition setBulkSaveStatus (f : BulkSaveStatus → BulkSaveStatus) (r : Run)
  : Run :=
  let s := f (status r) in
  {| status := s; trace := trace r ++ [SetBulkSaveStatus s] |}.

Definition perform (e : Effect) (r : Run) : Run :=
  {| status := status r; trace := trace r ++ [e] |}.

(** The local variables of the handler. *)
Module Var.
Record t := mk {
  completed : nat;
  errors : list string;
  savedTabIds : list Z
}.
End Var.

(** [((i + 1) / tabsToSave.length) * 100] *)
Definition percent (i n : nat) : Q :=
  ((inject_Z (Z.of_nat (i + 1)) / inject_Z (Z.of_nat n)) * 100)%Q.

(** [tab.title || tab.url] inside a template literal. *)
Definition label (tab : Tab) : string :=
  let fallback := default "undefined" (url tab) in
  match title tab with
  | Some s => if decide (s = "") then fallback else s
  | None => fallback
  end.

(** [if (tab.id)]: the identifier is defined and not zero. *)
Definition truthy_id (tab : Tab) : option Z :=
  match id tab with
  | Some z => if decide (z = 0) then None else Some z
  | None => None
  end.

(** The [onError] given to [useMutation]: it runs for every call that
    fails, before the [onError] handed to the call itself. *)
Definition mutationOnError (message : string) (r : Run) : Run :=
  perform (SetError (Some ("Something went wrong: " +:+ message)%string)) r.

(** One iteration of the [for] loop, for the tab at index [i] of [n]. *)
Definition iteration (createBookmark : nat → Tab → Outcome) (n i : nat)
    (tab : Tab) (v : Var.t) (r : Run) : Var.t * Run :=
  match createBookmark i tab with
  | OnSuccess =>
      let completed' := S (Var.completed v) in
      let saved' :=
        match truthy_id tab with
        | Some z => Var.savedTabIds v ++ [z]
        | None => Var.savedTabIds v
        end in
      (Var.mk completed' (Var.errors v) saved',
       setBulkSaveStatus (λ prev,
         {| isActive := isActive prev; progress := percent i n;
            total := total prev; completed := completed';
            errors := errors prev; saveType := saveType prev |}) r)
  | OnError message =>
      let errorMsg := (label tab +:+ ": " +:+ message)%string in
      (Var.mk (Var.completed v) (Var.errors v ++ [errorMsg])
              (Var.savedTabIds v),
       setBulkSaveStatus (λ prev,
         {| isActive := isActive prev; progress := percent i n;
            total := total prev; completed := completed prev;
            errors := errors prev ++ [errorMsg];
            saveType := saveType prev |}) (mutationOnError message r))
  | Thrown message =>
      let errorMsg :=
        (label tab +:+ ": " +:+ default "Unknown error" message)%string in
      (Var.mk (Var.completed v) (Var.errors v ++ [errorMsg])
              (Var.savedTabIds v),
       setBulkSaveStatus (λ prev,
         {| isActive := isActive prev; progress := progress prev;
            total := total prev; completed := completed prev;
            errors := errors prev ++ [errorMsg];
            saveType := saveType prev |}) r)
  end.

(** [for (let i = ...; i < tabsToSave.length; i++)], from index [i] on
    the tabs still to process. *)
Fixpoint loop (createBookmark : nat → Tab → Outcome) (n i : nat)
    (rest : list Tab) (v : Var.t) (r : Run) : Var.t * Run :=
  match rest with
  | [] => (v, r)
  | tab :: rest' =>
      let '(v', r') := iteration createBookmark n i tab v r in
      loop createBookmark n (S i) rest' v' r'
  end.

(** [closeTabsHelper]; [removeFails tabIds] tells whether the batched
    [chrome.tabs.remove] sets [chrome.runtime.lastError]. *)
Definition closeTabsHelper (closeTabs : bool) (removeFails : list Z → bool)
    (tabIds : list Z) (r : Run) : Run :=
  if negb closeTabs || bool_decide (length tabIds = 0%nat) then r
  else
    let r := perform (RemoveTabs tabIds) r in
    if removeFails tabIds
    then foldl (λ r tabId, perform (RemoveTab tabId) r) r tabIds
    else r.

Definition summary (completed n : nat) : option string :=
  if decide (completed = n) then None
  else if decide (0 < completed)%nat then
    Some ("Saved " +:+ pretty completed +:+ " of " +:+ pretty n
          +:+ " tabs. Some tabs failed to save.")%string
  else Some "Failed to save any tabs."%string.

(** [{ ...prev, isActive: false }] *)
Definition deactivated (prev : BulkSaveStatus) : BulkSaveStatus :=
  {| isActive := false; progress := progress prev; total := total prev;
     completed := completed prev; errors := errors prev;
     saveType := saveType prev |}.

(** [saveType === "all" ? allTabs : currentWindowTabs] *)
Definition tabsToSave (saveType : SaveType)
    (allTabs currentWindowTabs : list Tab) : list Tab :=
  match saveType with all => allTabs | window => currentWindowTabs end.

(** The first status of a run. *)
Definition started (n : nat) (saveType : SaveType) : BulkSaveStatus :=
  {| isActive := true; progress := 0; total := n; completed := 0;
     errors := []; saveType := Some saveType |}.

(** [handleBulkSave(saveType)], started on a page whose status cell
    holds [status0]. *)
Definition handleBulkSave (allTabs currentWindowTabs : list Tab)
    (closeTabs : bool) (createBookmark : nat → Tab → Outcome)
    (removeFails : list Z → bool) (saveType : SaveType)
    (status0 : BulkSaveStatus) : Run :=
  let tabs := tabsToSave saveType allTabs currentWindowTabs in
  let r := {| status := status0; trace := [] |} in
  if decide (length tabs = 0%nat) then
    perform (SetError (Some "No valid tabs found to save"%string)) r
  else
    let r := setBulkSaveStatus (λ _, started (length tabs) saveType) r in
    let '(v, r) :=
      loop createBookmark (length tabs) 0 tabs (Var.mk 0 [] []) r in
    let r :=
      if decide (0 < length (Var.savedTabIds v))%nat
      then closeTabsHelper closeTabs removeFails (Var.savedTabIds v) r
      else r in
    let r := setBulkSaveStatus deactivated r in
    let r := perform (SetError (summary (Var.completed v) (length tabs))) r in
    if closeTabs then perform CloseWindowLater r else r.

(** The status values the page was given, in order. *)
Definition snapshots (r : Run) : list BulkSaveStatus :=
  omap (λ e, match e with SetBulkSaveStatus s => Some s | _ => None end)
       (trace r).

(** The tab-closure requests sent to the host, in order. *)
Definition is_closure (e : Effect) : bool :=
  match e with RemoveTabs _ | RemoveTab _ => true | _ => false end.

Definition closures (r : Run) : list Effect :=
  filter (λ e, is_closure e = true) (trace r).

(** What [closeTabsHelper] asks of the host. *)
Definition closure_requests (closeTabs : bool) (removeFails : list Z → bool)
    (tabIds : list Z) : list Effect :=
  if closeTabs then
    match tabIds with
    | [] => []
    | _ => RemoveTabs tabIds ::
           (if removeFails tabIds then RemoveTab <$> tabIds else [])
    end
  else [].

(** The loop as [handleBulkSave] enters it. *)
Definition after_loop (createBookmark : nat → Tab → Outcome) (tabs : list Tab)
    (saveType : SaveType) (status0 : BulkSaveStatus) : Var.t * Run :=
  loop createBookmark (length tabs) 0 tabs (Var.mk 0 [] [])
    (setBulkSaveStatus (λ _, started (length tabs) saveType)
       {| status := status0; trace := [] |}).

(** No two tabs of the list carry the same host identifier. *)
Definition distinct_ids (tabs : list Tab) : Prop :=
  ∀ i j ti tj z, tabs !! i = Some ti → tabs !! j = Some tj →
                 id ti = Some z → id tj = Some z → i = j.

(** Two open tabs, the status cell of an idle page, and a remote service
    that accepts the first bookmark and times out on every later one. *)
Definition tabA : Tab :=
  {| id := Some 11%Z; url := Some "https://a.example"; title := Some "A" |}.

Definition tabB : Tab :=
  {| id := Some 12%Z; url := Some "https://b.example"; title := Some "B" |}.

Definition idle : BulkSaveStatus :=
  {| isActive := false; progress := 0; total := 0; completed := 0;
     errors := []; saveType := None |}.

Definition first_only (i : nat) (tab : Tab) : Outcome :=
  match i with O => OnSuccess | S _ => OnError "timeout" end.

(** A [createBookmark] that throws before it registers its callbacks. *)
Definition throwing (i : nat) (tab : Tab) : Outcome := Thrown (Some "boom").

End BulkSave.

(** * The code around the store and the handler *)

(** ** Events, updaters and example values of the settings module *)

(** The event [chrome.storage] raises for a write that took the store
    from [st] to [st']: one entry, for the key "settings". *)
Definition storage_change (st st' : Storage) : gmap string StorageChange :=
  {[ "settings" := {| oldValue := stored st; newValue := stored st' |} ]}.

(** The keys of [zSettingsSchema]. *)
Definition schema_keys : list string :=
  ["apiKey"; "apiKeyId"; "address"; "autoSave"; "closeTabsOnBulkSave";
   "theme"; "showCountBadge"; "useBadgeCache"; "badgeCacheExpireMs";
   "customHeaders"].

(** [Boolean(settings.closeTabsOnBulkSave)], the value the bulk-save page
    gives its [closeTabs] cell whenever [settings] changes. *)
Definition closeTabsFromSettings (s : Settings) : bool :=
  default false (closeTabsOnBulkSave s).

(** [(s) => ({ ...s, closeTabsOnBulkSave: e.target.checked })], the
    updater the page's checkbox hands to [setSettings]. *)
Definition checkboxUpdater (checked : bool) (s : Settings) : Settings :=
  {| apiKey := apiKey s; apiKeyId := apiKeyId s; address := address s;
     autoSave := autoSave s; closeTabsOnBulkSave := Some checked;
     theme := theme s; showCountBadge := showCountBadge s;
     useBadgeCache := useBadgeCache s;
     badgeCacheExpireMs := badgeCacheExpireMs s;
     customHeaders := customHeaders s |}.

(** An updater that sets the lifetime of the badge cache. *)
Definition expireAfter (ms : Z) (s : Settings) : Settings :=
  {| apiKey := apiKey s; apiKeyId := apiKeyId s; address := address s;
     autoSave := autoSave s; closeTabsOnBulkSave := closeTabsOnBulkSave s;
     theme := theme s; showCountBadge := showCountBadge s;
     useBadgeCache := useBadgeCache s; badgeCacheExpireMs := ms;
     customHeaders := customHeaders s |}.

(** A stored object that passes the schema, lacks the bulk-save
    preference and carries a key the schema does not know. *)
Definition legacy_record_with_extra : gmap string json :=
  {[ "apiKey" := JStr "k"; "installedBy" := JStr "v1" ]}.

(** A stored object without the required [apiKey]. *)
Definition address_only : gmap string json :=
  {[ "address" := JStr "https://keep.example" ]}.

(** Whether a string starts with a decimal digit, as every array index
    does. *)
Definition digit_head (s : string) : bool :=
  match s with
  | String c _ =>
      (48 <=? Ascii.nat_of_ascii c)%nat && (Ascii.nat_of_ascii c <=? 57)%nat
  | EmptyString => false
  end.

(** ** The settings module before [autoSave] and [closeTabsOnBulkSave]

    The earlier revision of the module: the same store and the same
    key, a schema of eight fields, and a [getPluginSettings] without the
    backfill branch. *)

Module Legacy.

Record Settings := mkSettings {
  apiKey : string;
  apiKeyId : option string;
  address : string;
  theme : Theme;
  showCountBadge : bool;
  useBadgeCache : bool;
  badgeCacheExpireMs : Z;
  customHeaders : gmap string string
}.

Definition DEFAULT_SETTINGS : Settings := {|
  apiKey := "";
  apiKeyId := None;
  address := "https://cloud.karakeep.app";
  theme := System;
  showCountBadge := DEFAULT_SHOW_COUNT_BADGE;
  useBadgeCache := true;
  badgeCacheExpireMs := DEFAULT_BADGE_CACHE_EXPIRE_MS;
  customHeaders := ∅
|}.

Definition safeParse (v : option json) : option Settings :=
  match v with
  | Some (JObj o) =>
      k ← Zod.required Zod.string_ (o !! "apiKey");
      kid ← Zod.optional Zod.string_ (o !! "apiKeyId");
      addr ← Zod.default Zod.string_ "https://cloud.karakeep.app" (o !! "address");
      th ← Zod.default Zod.enum_theme System (o !! "theme");
      badge ← Zod.default Zod.boolean DEFAULT_SHOW_COUNT_BADGE (o !! "showCountBadge");
      cache ← Zod.default Zod.boolean true (o !! "useBadgeCache");
      expire ← Zod.default Zod.number_min0 DEFAULT_BADGE_CACHE_EXPIRE_MS
                 (o !! "badgeCacheExpireMs");
      headers ← Zod.default Zod.record_string ∅ (o !! "customHeaders");
      Some {| apiKey := k; apiKeyId := kid; address := addr; theme := th;
              showCountBadge := badge; useBadgeCache := cache;
              badgeCacheExpireMs := expire; customHeaders := headers |}
  | _ => None
  end.

Definition toObject (s : Settings) : gmap string json :=
  <["apiKey" := JStr (apiKey s)]>
  (put_opt "apiKeyId" (JStr <$> apiKeyId s)
  (<["address" := JStr (address s)]>
  (<["theme" := JStr (theme_name (theme s))]>
  (<["showCountBadge" := JBool (showCountBadge s)]>
  (<["useBadgeCache" := JBool (useBadgeCache s)]>
  (<["badgeCacheExpireMs" := JNum (badgeCacheExpireMs s)]>
  (<["customHeaders" := JObj (JStr <$> customHeaders s)]> ∅))))))).

Definition toJson (s : Settings) : json := JObj (toObject s).

Definition getPluginSettings : Async Settings :=
  storedSettings ← STORAGE_get;
  match safeParse storedSettings with
  | Some data => mret data
  | None =>
      match truthy_object storedSettings with
      | Some o =>
          let mergedSettings := o ∪ toObject DEFAULT_SETTINGS in
          match safeParse (Some (JObj mergedSettings)) with
          | Some mergedData =>
              STORAGE_set (JObj mergedSettings);;
              mret mergedData
          | None => mret DEFAULT_SETTINGS
          end
      | None => mret DEFAULT_SETTINGS
      end
  end.

(** [setSettings] of the earlier hook, on its [settings] cell. *)
Definition setSettings (s : Settings → Settings) (settings : Settings)
  : Async unit :=
  let newVal := s settings in
  STORAGE_set (toJson newVal).

End Legacy.

(** A record of the earlier revision as the current schema parses it. *)
Definition of_legacy (s : Legacy.Settings) : Settings :=
  {| apiKey := Legacy.apiKey s; apiKeyId := Legacy.apiKeyId s;
     address := Legacy.address s; autoSave := false;
     closeTabsOnBulkSave := None; theme := Legacy.theme s;
     showCountBadge := Legacy.showCountBadge s;
     useBadgeCache := Legacy.useBadgeCache s;
     badgeCacheExpireMs := Legacy.badgeCacheExpireMs s;
     customHeaders := Legacy.customHeaders s |}.

(** A record of the current schema as the earlier one parses it. *)
Definition to_legacy (s : Settings) : Legacy.Settings :=
  {| Legacy.apiKey := apiKey s; Legacy.apiKeyId := apiKeyId s;
     Legacy.address := address s; Legacy.theme := theme s;
     Legacy.showCountBadge := showCountBadge s;
     Legacy.useBadgeCache := useBadgeCache s;
     Legacy.badgeCacheExpireMs := badgeCacheExpireMs s;
     Legacy.customHeaders := customHeaders s |}.

(** ** The bulk-save page around [handleBulkSave] *)

Module BulkSavePage.
Import BulkSave.

(** ** The outcome of a run, read off the calls *)

Definition succeeded (o : Outcome) : bool :=
  match o with OnSuccess => true | _ => false end.

(** The message the loop records for a tab whose call ended as [o]. *)
Definition errorMsg (tab : Tab) (o : Outcome) : option string :=
  match o with
  | OnSuccess => None
  | OnError message => Some (label tab +:+ ": " +:+ message)%string
  | Thrown message =>
      Some (label tab +:+ ": " +:+ default "Unknown error" message)%string
  end.

(** How the calls for the tabs end, in tab order. *)
Definition outcomes (createBookmark : nat → Tab → Outcome) (tabs : list Tab)
  : list (Tab * Outcome) :=
  imap (λ i tab, (tab, createBookmark i tab)) tabs.

Definition successes (createBookmark : nat → Tab → Outcome) (tabs : list Tab)
  : nat :=
  length (filter (λ p, succeeded p.2 = true) (outcomes createBookmark tabs)).

Definition failures (createBookmark : nat → Tab → Outcome) (tabs : list Tab)
  : list string :=
  omap (λ p, errorMsg p.1 p.2) (outcomes createBookmark tabs).

(** The messages the page was given through [setError], in order. *)
Definition reported (r : Run) : list (option string) :=
  omap (λ e, match e with SetError m => Some m | _ => None end) (trace r).

(** What the page is told when one call ends as [o] and the loop then
    moves to status [s]: a failed call first passes through the [onError]
    of [useMutation]. *)
Definition callEffects (o : Outcome) (s : BulkSaveStatus) : list Effect :=
  match o with
  | OnError message =>
      [SetError (Some ("Something went wrong: " +:+ message)%string);
       SetBulkSaveStatus s]
  | _ => [SetBulkSaveStatus s]
  end.

(** The messages of the [onError] of [useMutation], one for each call
    that failed, in tab order. *)
Definition wentWrong (createBookmark : nat → Tab → Outcome) (tabs : list Tab)
  : list (option string) :=
  omap (λ p, match p.2 with
             | OnError message =>
                 Some (Some ("Something went wrong: " +:+ message)%string)
             | _ => None
             end) (outcomes createBookmark tabs).

(** ** The rest of the bulk-save page *)

(** The predicate of the two [tabs.filter] calls of [prepare]. *)
Definition isValidTab (tab : Tab) : bool :=
  match url tab with
  | None => false
  | Some u =>
      negb (String.eqb u "") &&
      (String.prefix "http://" u || String.prefix "https://" u) &&
      negb (String.prefix "chrome://" u) &&
      negb (String.prefix "chrome-extension://" u) &&
      negb (String.prefix "moz-extension://" u)
  end.

Definition validTabs (tabs : list Tab) : list Tab :=
  filter (λ tab, isValidTab tab = true) tabs.

(** Which of its four returns the component takes. *)
Inductive View := Loading | Saving | Complete | Form.

Definition render (isSettingsLoading : bool) (bulkSaveStatus : BulkSaveStatus)
  : View :=
  if isSettingsLoading then Loading
  else if isActive bulkSaveStatus then Saving
  else if negb (isActive bulkSaveStatus) && bool_decide (0 < total bulkSaveStatus)%nat
       then Complete
  else Form.


(** The error lines of the completion view: [errors.slice(0, 3)], and
    the count of the "... and N more" line when there is one. *)
Definition shownErrors (bulkSaveStatus : BulkSaveStatus) : list string :=
  take 3 (errors bulkSaveStatus).

Definition moreErrors (bulkSaveStatus : BulkSaveStatus) : option nat :=
  if bool_decide (3 < length (errors bulkSaveStatus))%nat
  then Some (length (errors bulkSaveStatus) - 3)%nat
  else None.






End BulkSavePage.

Arguments safeParse : simpl never.
Arguments toObject : simpl never.
Arguments mergeWithDefaults : simpl never.
Arguments Zod.record_string : simpl never.
Arguments BulkSave.setBulkSaveStatus : simpl never.
Arguments BulkSave.perform : simpl never.
Arguments BulkSave.mutationOnError : simpl never.

(** * Properties of the settings store *)

Lemma toObject_lookup (s : Settings) (k : string) :
  toObject s !! k =
    if decide (k = "apiKey") then Some (JStr (apiKey s))
    else if decide (k = "apiKeyId") then JStr <$> apiKeyId s
    else if decide (k = "address") then Some (JStr (address s))
    else if decide (k = "autoSave") then Some (JBool (autoSave s))
    else if decide (k = "closeTabsOnBulkSave") then JBool <$> closeTabsOnBulkSave s
    else if decide (k = "theme") then Some (JStr (theme_name (theme s)))
    else if decide (k = "showCountBadge") then Some (JBool (showCountBadge s))
    else if decide (k = "useBadgeCache") then Some (JBool (useBadgeCache s))
    else if decide (k = "badgeCacheExpireMs") then Some (JNum (badgeCacheExpireMs s))
    else if decide (k = "customHeaders") then Some (JObj (JStr <$> customHeaders s))
    else None.
Proof.
  unfold toObject, put_opt.
  destruct (apiKeyId s), (closeTabsOnBulkSave s); simpl;
    repeat (rewrite lookup_insert; case_decide; subst; simpl; [try done|]);
    repeat case_decide; subst; try done.
Qed.

Lemma safeParse_Some (v : option json) (d : Settings) :
  safeParse v = Some d ↔ ∃ o, v = Some (JObj o) ∧ parses o d.
Proof.
  split.
  - destruct v as [[| | | | |o]|]; try discriminate. unfold safeParse. intros H.
    exists o. split; [done|].
    repeat match type of H with
    | (?m ≫= _) = Some _ => destruct m eqn:?; simpl in H; [|discriminate]
    end.
    injection H as <-. by constructor.
  - intros (o & -> & []). destruct d. unfold safeParse. simpl in *.
    repeat match goal with H : _ = Some _ |- _ => rewrite H; clear H end.
    done.
Qed.

Lemma record_string_fmap (h : gmap string string) :
  Zod.record_string (JObj (JStr <$> h)) = Some h.
Proof.
  unfold Zod.record_string. rewrite decide_True.
  - f_equal. apply map_eq. intros k.
    rewrite lookup_omap, lookup_fmap. by destruct (h !! k).
  - intros k x. rewrite lookup_fmap. destruct (h !! k); [|done].
    intros [= <-]. by eexists.
Qed.

Lemma enum_theme_name (t : Theme) : Zod.enum_theme (JStr (theme_name t)) = Some t.
Proof. by destruct t. Qed.

(** Storing a record whose expiry is not negative and parsing it back
    gives the record. *)
Lemma safeParse_toJson (s : Settings) :
  0 ≤ badgeCacheExpireMs s → safeParse (Some (toJson s)) = Some s.
Proof.
  intros Hn. apply safeParse_Some. exists (toObject s). split; [done|].
  constructor; rewrite toObject_lookup; simpl.
  - done.
  - by destruct (apiKeyId s).
  - done.
  - done.
  - by destruct (closeTabsOnBulkSave s).
  - apply enum_theme_name.
  - done.
  - done.
  - by rewrite decide_True.
  - apply record_string_fmap.
Qed.

Lemma parses_nonneg o d : parses o d → 0 ≤ badgeCacheExpireMs d.
Proof.
  intros [_ _ _ _ _ _ _ _ H _].
  destruct (o !! "badgeCacheExpireMs") as [[]|]; simpl in H; try done.
  - case_decide; [|done]. by injection H as <-.
  - by injection H as <-.
Qed.

Lemma parses_close_lookup o d :
  parses o d →
  closeTabsOnBulkSave d = None ↔ o !! "closeTabsOnBulkSave" = None.
Proof.
  intros [_ _ _ _ H _ _ _ _ _].
  destruct (o !! "closeTabsOnBulkSave") as [[]|]; simpl in H; try done;
    injection H as <-; done.
Qed.

Ltac run_async :=
  unfold result, after, getPluginSettings, setSettings, mbind, Async_bind,
    mret, Async_ret, STORAGE_get, STORAGE_set; simpl.

(** A stored value that parses with the bulk-save preference present is
    returned as parsed, and the store is left alone. *)
Lemma read_settled (st : Storage) (d : Settings) :
  safeParse (stored st) = Some d → is_Some (closeTabsOnBulkSave d) →
  getPluginSettings st = (d, st).
Proof.
  intros Hp [b Hb]. run_async. by rewrite Hp, Hb.
Qed.

Lemma mergeWithDefaults_lookup_close (o : gmap string json) :
  is_Some (mergeWithDefaults o !! "closeTabsOnBulkSave").
Proof.
  unfold mergeWithDefaults. rewrite lookup_union.
  rewrite toObject_lookup. simpl.
  destruct (o !! "closeTabsOnBulkSave"); by eexists.
Qed.

Lemma read_cases (st : Storage) :
  read_outcome st (result getPluginSettings st) (after getPluginSettings st).
Proof.
  run_async.
  destruct (safeParse (stored st)) as [d|] eqn:Hp.
  - destruct (closeTabsOnBulkSave d) as [b|] eqn:Hc; simpl.
    + destruct st. apply read_valid; [done|]. rewrite Hc. by eexists.
    + by apply read_backfilled.
  - destruct (truthy_object (stored st)) as [o|] eqn:Ho.
    + destruct (safeParse (Some (JObj (mergeWithDefaults o)))) as [d|] eqn:Hm;
        simpl.
      * by apply read_merged.
      * destruct st. apply read_fallback; [done|]. simpl in *.
        intros o' Ho'. congruence.
    + destruct st. apply read_fallback; [done|]. simpl in *.
      intros o' Ho'. congruence.
Qed.

(** After a read, either the store holds a value that parses to the
    result with the preference present, or the read changed nothing. *)
Lemma read_post (st : Storage) :
  let r := result getPluginSettings st in
  let st' := after getPluginSettings st in
  (safeParse (stored st') = Some r ∧ is_Some (closeTabsOnBulkSave r)) ∨ st' = st.
Proof.
  simpl. destruct (read_cases st) as [d Hp Hc|d Hp Hc|o d Hp Ho Hm|Hp Hm].
  - by right.
  - left. simpl. split; [|by eexists].
    apply safeParse_toJson. simpl.
    apply safeParse_Some in Hp as (o & _ & Hp). by eapply parses_nonneg.
  - left. simpl. split; [done|].
    apply safeParse_Some in Hm as (o' & [= <-] & Hm).
    destruct (mergeWithDefaults_lookup_close o) as [x Hx].
    destruct (closeTabsOnBulkSave d) eqn:Hd; [by eexists|].
    apply (parses_close_lookup _ _ Hm) in Hd. congruence.
  - by right.
Qed.

(** C3: whatever the store holds, a second [getPluginSettings] right
    after a first one returns the same record as the first, and leaves
    the store and the log of [STORAGE.set] calls as the first left them:
    the second read writes nothing. *)
Theorem read_twice_same (st : Storage) :
  let r1 := result getPluginSettings st in
  let st1 := after getPluginSettings st in
  result getPluginSettings st1 = r1 ∧
  after getPluginSettings st1 = st1 ∧
  set_log (after getPluginSettings st1) = set_log st1.
Proof.
  simpl.
  assert (getPluginSettings (after getPluginSettings st)
          = (result getPluginSettings st, after getPluginSettings st)) as H.
  { destruct (read_post st) as [[Hp Hc]|Heq].
    - by apply read_settled.
    - simpl in Heq. unfold result, after in *.
      destruct (getPluginSettings st) as [r st'] eqn:E. simpl in *.
      by subst. }
  unfold result, after in *. by rewrite H.
Qed.









(** C6: when the stored object passes the schema and has no
    [closeTabsOnBulkSave] key, the read returns the parsed record with
    [closeTabsOnBulkSave = false], performs one [STORAGE.set] with that
    record, and the stored object then carries the key with [false]. *)
Theorem read_backfills_close_preference (st : Storage) o d :
  stored st = Some (JObj o) → safeParse (Some (JObj o)) = Some d →
  o !! "closeTabsOnBulkSave" = None →
  let r := result getPluginSettings st in
  let st' := after getPluginSettings st in
  closeTabsOnBulkSave r = Some false ∧
  r = enrich d ∧
  set_log st' = set_log st ++ [toJson r] ∧
  stored st' = Some (toJson r) ∧
  toObject r !! "closeTabsOnBulkSave" = Some (JBool false).
Proof.
  intros Hv Hp Ho. simpl.
  assert (closeTabsOnBulkSave d = None) as Hc.
  { apply safeParse_Some in Hp as (o' & [= <-] & Hp).
    by apply (parses_close_lookup _ _ Hp). }
  run_async. rewrite Hv, Hp, Hc. simpl.
  rewrite toObject_lookup. simpl. by rewrite Hc.
Qed.

Lemma read_backfills_close_preference_witness :
  let st := {| stored := Some legacy_record; set_log := [] |} in
  let r := result getPluginSettings st in
  let st' := after getPluginSettings st in
  closeTabsOnBulkSave r = Some false ∧
  r = enrich legacy_parsed ∧
  set_log st' = set_log st ++ [toJson r] ∧
  stored st' = Some (toJson r) ∧
  toObject r !! "closeTabsOnBulkSave" = Some (JBool false).
Proof.
  apply (read_backfills_close_preference
           {| stored := Some legacy_record; set_log := [] |}
           {[ "apiKey" := JStr "k" ]} legacy_parsed).
  - reflexivity.
  - vm_compute. reflexivity.
  - vm_compute. reflexivity.
Defined.

(** C1, evaluated on a change whose new value is [{ apiKey: "k" }]: the
    hook's listener installs, and the subscriber's callback receives, a
    record whose [closeTabsOnBulkSave] is undefined, so not a fully
    defaulted one; [getPluginSettings] on the same stored value returns
    the preference as [false]. *)
Theorem listeners_observe_undefined_preference :
  closeTabsOnBulkSave (settings (onChange legacy_change useState_initial)) = None ∧
  (∃ s, subscriber_listener legacy_change = Some s ∧
        closeTabsOnBulkSave s = None ∧ ¬ fully_defaulted s) ∧
  closeTabsOnBulkSave
    (result getPluginSettings {| stored := Some legacy_record; set_log := [] |})
  = Some false.
Proof.
  split; [|split].
  - vm_compute. reflexivity.
  - eexists. split; [vm_compute; reflexivity|]. split; [reflexivity|].
    intros [[b Hb] _]. discriminate.
  - vm_compute. reflexivity.
Qed.

(** C10: on a change of the key whose new value fails the schema, the
    listener of [subscribeToSettingsChanges] still calls the callback,
    with [DEFAULT_SETTINGS], whose [apiKey] is empty, while the hook's
    listener leaves the hook as it was. *)
Theorem subscriber_gets_defaults_on_invalid_change
    (changes : gmap string StorageChange) (ch : StorageChange) (h : Hook) :
  changes !! "settings" = Some ch →
  safeParse (newValue ch) = None →
  subscriber_listener changes = Some DEFAULT_SETTINGS ∧
  apiKey DEFAULT_SETTINGS = "" ∧
  onChange changes h = h.
Proof.
  intros Hc Hp. unfold subscriber_listener, onChange. by rewrite Hc, Hp.
Qed.

Lemma subscriber_gets_defaults_on_invalid_change_witness :
  subscriber_listener invalid_change = Some DEFAULT_SETTINGS ∧
  apiKey DEFAULT_SETTINGS = "" ∧
  onChange invalid_change useState_initial = useState_initial.
Proof.
  apply (subscriber_gets_defaults_on_invalid_change invalid_change
           {| oldValue := None;
              newValue := Some (JObj {[ "apiKey" := JNum 5 ]}) |}).
  - vm_compute. reflexivity.
  - vm_compute. reflexivity.
Defined.

Lemma hook_after_snoc events e :
  hook_after (events ++ [e]) = hook_step (hook_after events) e.
Proof. unfold hook_after. by rewrite foldl_app. Qed.

Lemma hook_settings_latest (events : list HookEvent) :
  settings (hook_after events) = latest_installed (rev events).
Proof.
  induction events as [|e events IH] using rev_ind; [done|].
  rewrite hook_after_snoc, rev_unit. destruct e as [s|changes]; simpl; [done|].
  unfold onChange. destruct (changes !! "settings") as [ch|]; simpl; [|done].
  by destruct (safeParse (newValue ch)).
Qed.

(** C2, amended: [setSettings] stores the updater applied to the hook's
    own snapshot, which is the record most recently handed to the hook
    by the initial read or by a change that passed the schema, and
    [DEFAULT_SETTINGS] as long as there was none. *)
Theorem write_applies_updater_to_hook_snapshot
    (events : list HookEvent) (u : Settings → Settings) (st : Storage) :
  let st' := after (setSettings u (hook_after events)) st in
  let snapshot := latest_installed (rev events) in
  stored st' = Some (toJson (u snapshot)) ∧
  set_log st' = set_log st ++ [toJson (u snapshot)].
Proof.
  simpl. run_async. by rewrite hook_settings_latest.
Qed.

(** C2 as stated does not hold: the store holds the valid record
    [configured], the hook is freshly mounted and has received nothing,
    and [setSettings] is called with the identity.  What is stored is
    [DEFAULT_SETTINGS], not the updater applied to the record that was
    persisted last. *)
Lemma write_before_initial_read_misses_store :
  let st := {| stored := Some (toJson configured); set_log := [] |} in
  safeParse (stored st) = Some configured ∧
  stored (after (setSettings id (hook_after [])) st)
  = Some (toJson DEFAULT_SETTINGS) ∧
  toJson DEFAULT_SETTINGS ≠ toJson (id configured).
Proof.
  split; [|split].
  - by apply safeParse_toJson.
  - reflexivity.
  - intros E.
    apply (f_equal (λ v, match v with
                         | JObj m => m !! "apiKey"
                         | _ => None
                         end)) in E.
    unfold toJson in E. rewrite !toObject_lookup in E. discriminate.
Qed.

(** * Further properties of the settings module *)

Lemma storage_change_lookup st st' :
  storage_change st st' !! "settings"
  = Some {| oldValue := stored st; newValue := stored st' |}.
Proof. unfold storage_change. by rewrite lookup_singleton_eq. Qed.

Lemma setSettings_after (u : Settings → Settings) (h : Hook) (st : Storage) :
  after (setSettings u h) st
  = {| stored := Some (toJson (u (settings h)));
       set_log := set_log st ++ [toJson (u (settings h))] |}.
Proof. done. Qed.

(** X1: a record written by [setSettings] whose cache lifetime is not
    negative comes back unchanged through the storage event of that
    write: the hook's listener installs exactly the written record, and
    a subscriber's callback receives it; the loading flag is untouched. *)
Theorem write_notify_round_trip
    (h : Hook) (u : Settings → Settings) (st : Storage) :
  0 ≤ badgeCacheExpireMs (u (settings h)) →
  let st' := after (setSettings u h) st in
  let h' := onChange (storage_change st st') h in
  settings h' = u (settings h) ∧ isInit h' = isInit h ∧
  subscriber_listener (storage_change st st') = Some (u (settings h)).
Proof.
  intros Hn. simpl. unfold onChange, subscriber_listener.
  rewrite storage_change_lookup, setSettings_after. simpl.
  by rewrite (safeParse_toJson _ Hn).
Qed.

Lemma enrich_defined (d : Settings) :
  is_Some (closeTabsOnBulkSave d) → enrich d = d.
Proof. intros [b Hb]. destruct d. simpl in *. by subst. Qed.

(** What a read makes of a stored value that passes the schema. *)
Lemma read_of_valid (st : Storage) (d : Settings) :
  safeParse (stored st) = Some d → result getPluginSettings st = enrich d.
Proof.
  intros Hp. destruct (read_cases st) as [d' Hp' Hc|d' Hp' Hc|o d' Hp' Ho Hm|Hp' Hm];
    try congruence.
  assert (d' = d) as -> by congruence. by rewrite enrich_defined.
Qed.

(** X2: [getPluginSettings] after such a write returns the written
    record with the bulk-save preference backfilled; when the written
    record already had the preference, it is returned as written and
    the read stores nothing. *)
Theorem read_after_write
    (h : Hook) (u : Settings → Settings) (st : Storage) :
  0 ≤ badgeCacheExpireMs (u (settings h)) →
  let written := u (settings h) in
  let st' := after (setSettings u h) st in
  result getPluginSettings st' = enrich written ∧
  (is_Some (closeTabsOnBulkSave written) →
   result getPluginSettings st' = written ∧ after getPluginSettings st' = st').
Proof.
  intros Hn. simpl. rewrite setSettings_after.
  assert (safeParse (stored {| stored := Some (toJson (u (settings h)));
            set_log := set_log st ++ [toJson (u (settings h))] |})
          = Some (u (settings h))) as Hp by by apply safeParse_toJson.
  split; [by apply read_of_valid|].
  intros Hc. unfold result, after. by rewrite (read_settled _ _ Hp Hc).
Qed.

Lemma safeParse_negative_expiry (o : gmap string json) (n : Z) :
  o !! "badgeCacheExpireMs" = Some (JNum n) → n < 0 →
  safeParse (Some (JObj o)) = None.
Proof.
  intros Ho Hn. destruct (safeParse (Some (JObj o))) as [d|] eqn:E; [|done].
  apply safeParse_Some in E as (o' & [= <-] & [_ _ _ _ _ _ _ _ Hexp _]).
  rewrite Ho in Hexp. simpl in Hexp.
  by rewrite decide_False in Hexp by lia.
Qed.

(** X3: [setSettings] stores whatever the updater returns.  When that
    record has a negative cache lifetime the stored value fails the
    schema even after the merge with the defaults: every later read
    returns [DEFAULT_SETTINGS] and leaves the store alone, the hook's
    listener ignores the event, and subscribers are handed
    [DEFAULT_SETTINGS]. *)
Theorem negative_expiry_write_falls_back
    (h : Hook) (u : Settings → Settings) (st : Storage) :
  badgeCacheExpireMs (u (settings h)) < 0 →
  let st' := after (setSettings u h) st in
  stored st' = Some (toJson (u (settings h))) ∧
  getPluginSettings st' = (DEFAULT_SETTINGS, st') ∧
  onChange (storage_change st st') h = h ∧
  subscriber_listener (storage_change st st') = Some DEFAULT_SETTINGS.
Proof.
  intros Hn. simpl. rewrite setSettings_after.
  set (w := u (settings h)) in *.
  assert (safeParse (Some (toJson w)) = None) as Hp.
  { apply (safeParse_negative_expiry _ (badgeCacheExpireMs w)); [|done].
    by rewrite toObject_lookup. }
  assert (safeParse (Some (JObj (mergeWithDefaults (toObject w)))) = None) as Hm.
  { apply (safeParse_negative_expiry _ (badgeCacheExpireMs w)); [|done].
    unfold mergeWithDefaults. rewrite lookup_union_l'; [by rewrite toObject_lookup|].
    rewrite toObject_lookup. by eexists. }
  split; [done|]. split; [|split].
  - run_async. unfold toJson in *. by rewrite Hp, Hm.
  - unfold onChange. rewrite storage_change_lookup. simpl. by rewrite Hp.
  - unfold subscriber_listener. rewrite storage_change_lookup. simpl.
    by rewrite Hp.
Qed.

(** X4: the backfill branch stores the parsed record, so a key of the
    stored object that the schema does not know is gone from the store
    after the read. *)
Theorem backfill_drops_unknown_keys (st : Storage) o d k :
  stored st = Some (JObj o) → safeParse (Some (JObj o)) = Some d →
  o !! "closeTabsOnBulkSave" = None → k ∉ schema_keys →
  ∃ o', stored (after getPluginSettings st) = Some (JObj o') ∧ o' !! k = None.
Proof.
  intros Hv Hp Ho Hk.
  assert (closeTabsOnBulkSave d = None) as Hc.
  { apply safeParse_Some in Hp as (o' & [= <-] & Hp).
    by apply (parses_close_lookup _ _ Hp). }
  exists (toObject (enrich d)). split.
  - run_async. by rewrite Hv, Hp, Hc.
  - rewrite toObject_lookup. unfold schema_keys in Hk.
    repeat (case_decide; [subst; exfalso; apply Hk;
                          repeat first [by left|right]|]).
    done.
Qed.

(** X5: the merge branch stores the merged object itself, so every key
    of the stored value, known to the schema or not, is still in the
    store with its value after the read. *)
Theorem merge_keeps_stored_keys (st : Storage) o d k v :
  safeParse (stored st) = None → truthy_object (stored st) = Some o →
  safeParse (Some (JObj (mergeWithDefaults o))) = Some d →
  o !! k = Some v →
  ∃ o', stored (after getPluginSettings st) = Some (JObj o') ∧ o' !! k = Some v.
Proof.
  intros Hp Ho Hm Hk. exists (mergeWithDefaults o). split.
  - run_async. by rewrite Hp, Ho, Hm.
  - unfold mergeWithDefaults. by apply lookup_union_Some_l.
Qed.

(** X6: a read either leaves the store and the log as they were, or
    performs exactly one [STORAGE.set], of a value that passes the
    schema and parses to the record the read returns. *)
Theorem read_writes_at_most_once_and_valid (st : Storage) :
  let r := result getPluginSettings st in
  let st' := after getPluginSettings st in
  st' = st ∨
  ∃ v, stored st' = Some v ∧ set_log st' = set_log st ++ [v] ∧
       safeParse (Some v) = Some r.
Proof.
  simpl. destruct (read_post st) as [[Hp _]|Heq]; [|by left].
  destruct (read_cases st) as [d _ _|d _ _|o d _ _ _|_ _]; try by left.
  - right. by eexists.
  - right. by eexists.
Qed.

(** X8: the hook stops being pending exactly when its initial read has
    resolved; storage events, valid or not, never end the loading
    state. *)
Theorem pending_until_initial_read (events : list HookEvent) :
  isInit (hook_after events) = true ↔ ∃ s, Resolved s ∈ events.
Proof.
  induction events as [|e events IH] using rev_ind.
  - split; [done|]. intros [s Hs]. by apply elem_of_nil in Hs.
  - rewrite hook_after_snoc. destruct e as [s|changes]; simpl.
    + split; [|done]. intros _. exists s. apply elem_of_app. right. by left.
    + assert (isInit (onChange changes (hook_after events))
              = isInit (hook_after events)) as ->.
      { unfold onChange. destruct (changes !! "settings") as [ch|]; [|done].
        by destruct (safeParse (newValue ch)). }
      rewrite IH. split; intros [s Hs]; exists s.
      * apply elem_of_app. by left.
      * apply elem_of_app in Hs as [Hs|Hs]; [done|].
        apply elem_of_cons in Hs as [Hs|Hs]; [done|]. by apply elem_of_nil in Hs.
Qed.

(** X9: for a change whose new value passes the schema, the record the
    hook's listener installs and the record [getPluginSettings] returns
    for the same stored value differ at most by the backfilled
    preference, and give the bulk-save page the same [closeTabs]. *)
Theorem listener_and_read_agree_on_close_tabs
    (changes : gmap string StorageChange) (ch : StorageChange) (h : Hook)
    (log : list json) :
  changes !! "settings" = Some ch →
  is_Some (safeParse (newValue ch)) →
  let notified := settings (onChange changes h) in
  let read := result getPluginSettings {| stored := newValue ch; set_log := log |} in
  read = enrich notified ∧
  closeTabsFromSettings read = closeTabsFromSettings notified.
Proof.
  intros Hc [d Hd]. simpl. unfold onChange. rewrite Hc, Hd. simpl.
  rewrite (read_of_valid _ d) by done. split; [done|].
  unfold closeTabsFromSettings. simpl. by destruct (closeTabsOnBulkSave d).
Qed.


(** X11: when a read writes, the storage event of that write hands the
    hook's listener and the subscribers the very record the read
    returns. *)
Theorem read_and_its_notification_agree (st : Storage) (h : Hook) :
  let r := result getPluginSettings st in
  let st' := after getPluginSettings st in
  set_log st' ≠ set_log st →
  settings (onChange (storage_change st st') h) = r ∧
  subscriber_listener (storage_change st st') = Some r.
Proof.
  simpl. intros Hlog.
  assert (safeParse (stored (after getPluginSettings st))
          = Some (result getPluginSettings st)) as Hp.
  { destruct (read_post st) as [[Hp _]|Heq]; [done|].
    simpl in Heq. by rewrite Heq in Hlog. }
  unfold onChange, subscriber_listener. rewrite storage_change_lookup. simpl.
  by rewrite Hp.
Qed.

Lemma pretty_N_char_digit (d : N) (s : string) :
  digit_head (String (pretty_N_char d) s) = true.
Proof. unfold pretty_N_char. by repeat case_match. Qed.

Lemma pretty_N_go_digit (x d : N) (s : string) :
  digit_head (pretty_N_go x (String (pretty_N_char d) s)) = true.
Proof.
  revert d s. induction (N.lt_wf_0 x) as [x _ IH]; intros d s.
  destruct (decide (x = 0)%N) as [->|Hx].
  - rewrite pretty_N_go_0. apply pretty_N_char_digit.
  - rewrite pretty_N_go_step by lia. apply IH.
    apply N.div_lt; lia.
Qed.

Lemma pretty_nat_digit (i : nat) : digit_head (pretty i) = true.
Proof.
  unfold pretty, pretty_nat, pretty, pretty_N.
  case_decide; [done|]. rewrite pretty_N_go_step by lia.
  apply pretty_N_go_digit.
Qed.

Lemma array_entries_lookup (l : list json) (k : string) :
  digit_head k = false → array_entries l !! k = None.
Proof.
  intros Hk. unfold array_entries. apply not_elem_of_list_to_map.
  rewrite fmap_imap. intros (i & x & -> & _)%elem_of_lookup_imap.
  simpl in Hk. by rewrite pretty_nat_digit in Hk.
Qed.

(** [z.object] strips the keys it does not know: two objects that agree
    on the keys of the schema parse alike. *)
Lemma safeParse_ext (o o' : gmap string json) :
  (∀ k, k ∈ schema_keys → o !! k = o' !! k) →
  safeParse (Some (JObj o)) = safeParse (Some (JObj o')).
Proof.
  intros H. unfold safeParse, schema_keys in *.
  rewrite !H by (repeat first [by left|right]). done.
Qed.

(** X7: an array passes the [typeof === "object"] test.  Its indices are
    not keys of the schema, so the merge validates: the read returns
    [DEFAULT_SETTINGS] and replaces the array in the store by the
    defaults together with the array's entries. *)
Theorem stored_array_is_overwritten (l : list json) (log : list json) :
  let st := {| stored := Some (JArr l); set_log := log |} in
  let merged := JObj (mergeWithDefaults (array_entries l)) in
  getPluginSettings st
  = (DEFAULT_SETTINGS, {| stored := Some merged; set_log := log ++ [merged] |}).
Proof.
  simpl.
  assert (safeParse (Some (JObj (mergeWithDefaults (array_entries l))))
          = Some DEFAULT_SETTINGS) as Hm.
  { rewrite <- (safeParse_toJson DEFAULT_SETTINGS) by done.
    apply safeParse_ext. intros k Hk. unfold mergeWithDefaults.
    apply lookup_union_r, array_entries_lookup.
    unfold schema_keys in Hk.
    repeat (apply elem_of_cons in Hk as [->|Hk]; [done|]).
    by apply elem_of_nil in Hk. }
  run_async. by rewrite Hm.
Qed.

Lemma write_notify_round_trip_witness :
  let st := {| stored := None; set_log := [] |} in
  let st' := after (setSettings (checkboxUpdater true) useState_initial) st in
  let h' := onChange (storage_change st st') useState_initial in
  settings h' = checkboxUpdater true DEFAULT_SETTINGS ∧
  isInit h' = false ∧
  subscriber_listener (storage_change st st')
  = Some (checkboxUpdater true DEFAULT_SETTINGS).
Proof.
  apply (write_notify_round_trip useState_initial (checkboxUpdater true)
           {| stored := None; set_log := [] |}).
  simpl. done.
Defined.

Lemma read_after_write_witness :
  let st' := after (setSettings (checkboxUpdater true) useState_initial)
               {| stored := None; set_log := [] |} in
  result getPluginSettings st' = enrich (checkboxUpdater true DEFAULT_SETTINGS) ∧
  (is_Some (closeTabsOnBulkSave (checkboxUpdater true DEFAULT_SETTINGS)) →
   result getPluginSettings st' = checkboxUpdater true DEFAULT_SETTINGS ∧
   after getPluginSettings st' = st').
Proof.
  apply (read_after_write useState_initial (checkboxUpdater true)
           {| stored := None; set_log := [] |}).
  simpl. done.
Defined.

Lemma negative_expiry_write_falls_back_witness :
  let st := {| stored := None; set_log := [] |} in
  let st' := after (setSettings (expireAfter (-1)) useState_initial) st in
  stored st' = Some (toJson (expireAfter (-1) DEFAULT_SETTINGS)) ∧
  getPluginSettings st' = (DEFAULT_SETTINGS, st') ∧
  onChange (storage_change st st') useState_initial = useState_initial ∧
  subscriber_listener (storage_change st st') = Some DEFAULT_SETTINGS.
Proof.
  apply (negative_expiry_write_falls_back useState_initial (expireAfter (-1))
           {| stored := None; set_log := [] |}).
  simpl. lia.
Defined.

Lemma backfill_drops_unknown_keys_witness :
  ∃ o', stored (after getPluginSettings
                  {| stored := Some (JObj legacy_record_with_extra);
                     set_log := [] |}) = Some (JObj o') ∧
        o' !! "installedBy" = None.
Proof.
  apply (backfill_drops_unknown_keys
           {| stored := Some (JObj legacy_record_with_extra); set_log := [] |}
           legacy_record_with_extra legacy_parsed "installedBy").
  - reflexivity.
  - vm_compute. reflexivity.
  - vm_compute. reflexivity.
  - unfold schema_keys. intros H.
    repeat (apply elem_of_cons in H as [H|H]; [discriminate|]).
    by apply elem_of_nil in H.
Defined.

Lemma merge_keeps_stored_keys_witness :
  ∃ o', stored (after getPluginSettings
                  {| stored := Some (JObj address_only); set_log := [] |})
        = Some (JObj o') ∧
        o' !! "address" = Some (JStr "https://keep.example").
Proof.
  apply (merge_keeps_stored_keys
           {| stored := Some (JObj address_only); set_log := [] |}
           address_only
           {| apiKey := ""; apiKeyId := None;
              address := "https://keep.example"; autoSave := false;
              closeTabsOnBulkSave := Some false; theme := System;
              showCountBadge := false; useBadgeCache := true;
              badgeCacheExpireMs := 3600000; customHeaders := ∅ |}
           "address" (JStr "https://keep.example")).
  - vm_compute. reflexivity.
  - reflexivity.
  - vm_compute. reflexivity.
  - vm_compute. reflexivity.
Defined.

Lemma listener_and_read_agree_on_close_tabs_witness :
  let notified := settings (onChange legacy_change useState_initial) in
  let read := result getPluginSettings
                {| stored := Some legacy_record; set_log := [] |} in
  read = enrich notified ∧
  closeTabsFromSettings read = closeTabsFromSettings notified.
Proof.
  apply (listener_and_read_agree_on_close_tabs legacy_change
           {| oldValue := None; newValue := Some legacy_record |}
           useState_initial []).
  - vm_compute. reflexivity.
  - exists legacy_parsed. vm_compute. reflexivity.
Defined.


Lemma read_and_its_notification_agree_witness :
  let st := {| stored := Some legacy_record; set_log := [] |} in
  let r := result getPluginSettings st in
  let st' := after getPluginSettings st in
  settings (onChange (storage_change st st') useState_initial) = r ∧
  subscriber_listener (storage_change st st') = Some r.
Proof.
  apply (read_and_its_notification_agree
           {| stored := Some legacy_record; set_log := [] |} useState_initial).
  intros E. apply (f_equal length) in E. vm_compute in E. discriminate.
Defined.

(** ** Across the two revisions of the module *)

Arguments Legacy.safeParse : simpl never.
Arguments Legacy.toObject : simpl never.
Arguments Zod.enum_theme : simpl never.
Arguments Zod.number_min0 : simpl never.

Lemma legacy_toObject_lookup (s : Legacy.Settings) (k : string) :
  Legacy.toObject s !! k =
    if decide (k = "apiKey") then Some (JStr (Legacy.apiKey s))
    else if decide (k = "apiKeyId") then JStr <$> Legacy.apiKeyId s
    else if decide (k = "address") then Some (JStr (Legacy.address s))
    else if decide (k = "theme") then Some (JStr (theme_name (Legacy.theme s)))
    else if decide (k = "showCountBadge") then Some (JBool (Legacy.showCountBadge s))
    else if decide (k = "useBadgeCache") then Some (JBool (Legacy.useBadgeCache s))
    else if decide (k = "badgeCacheExpireMs")
         then Some (JNum (Legacy.badgeCacheExpireMs s))
    else if decide (k = "customHeaders")
         then Some (JObj (JStr <$> Legacy.customHeaders s))
    else None.
Proof.
  unfold Legacy.toObject, put_opt.
  destruct (Legacy.apiKeyId s); simpl;
    repeat (rewrite lookup_insert; case_decide; subst; simpl; [try done|]);
    repeat case_decide; subst; try done.
Qed.

(** The current schema accepts every record the earlier revision
    stores, and leaves the two later fields at their schema values. *)
Lemma safeParse_legacy (s : Legacy.Settings) :
  0 ≤ Legacy.badgeCacheExpireMs s →
  safeParse (Some (Legacy.toJson s)) = Some (of_legacy s).
Proof.
  intros Hn. apply safeParse_Some. exists (Legacy.toObject s). split; [done|].
  constructor; rewrite legacy_toObject_lookup; simpl.
  - done.
  - by destruct (Legacy.apiKeyId s).
  - done.
  - done.
  - done.
  - apply enum_theme_name.
  - done.
  - done.
  - unfold Zod.number_min0. by rewrite decide_True.
  - apply record_string_fmap.
Qed.

(** The earlier schema accepts every record the current revision
    stores, dropping the two fields it does not know. *)
Lemma legacy_safeParse_current (s : Settings) :
  0 ≤ badgeCacheExpireMs s →
  Legacy.safeParse (Some (toJson s)) = Some (to_legacy s).
Proof.
  intros Hn. unfold Legacy.safeParse, toJson.
  rewrite !toObject_lookup. simpl.
  rewrite enum_theme_name, record_string_fmap. unfold Zod.number_min0.
  rewrite decide_True by done. simpl. unfold to_legacy.
  by destruct (apiKeyId s).
Qed.

(** X12: a record stored by the earlier revision is read by the current
    one with every earlier field unchanged, [autoSave] and
    [closeTabsOnBulkSave] set to [false], and is stored back once in
    that form. *)
Theorem upgrade_read_keeps_legacy_record (s : Legacy.Settings) (log : list json) :
  0 ≤ Legacy.badgeCacheExpireMs s →
  let st := {| stored := Some (Legacy.toJson s); set_log := log |} in
  let r := result getPluginSettings st in
  r = enrich (of_legacy s) ∧
  to_legacy r = s ∧ autoSave r = false ∧ closeTabsOnBulkSave r = Some false ∧
  after getPluginSettings st
  = {| stored := Some (toJson r); set_log := log ++ [toJson r] |}.
Proof.
  intros Hn. simpl.
  pose proof (safeParse_legacy s Hn) as Hp.
  run_async. rewrite Hp. simpl. repeat split. by destruct s.
Qed.

(** X13: a record stored by the current revision is read by the earlier
    one as its eight earlier fields, and the earlier read stores
    nothing. *)
Theorem legacy_read_of_current_record (s : Settings) (log : list json) :
  0 ≤ badgeCacheExpireMs s →
  let st := {| stored := Some (toJson s); set_log := log |} in
  Legacy.getPluginSettings st = (to_legacy s, st).
Proof.
  intros Hn. simpl.
  unfold Legacy.getPluginSettings, mbind, Async_bind, mret, Async_ret,
    STORAGE_get. simpl.
  by rewrite (legacy_safeParse_current s Hn).
Qed.

(** X14: every write by the earlier revision reaches the current hook's
    listener and the subscribers as a record whose
    [closeTabsOnBulkSave] is undefined, while a read of the same store
    returns it as [false]. *)
Theorem legacy_write_reaches_listeners_without_preference
    (u : Legacy.Settings → Legacy.Settings) (s : Legacy.Settings)
    (h : Hook) (st : Storage) :
  0 ≤ Legacy.badgeCacheExpireMs (u s) →
  let st' := after (Legacy.setSettings u s) st in
  let ch : gmap string StorageChange :=
    {[ "settings" := {| oldValue := stored st; newValue := stored st' |} ]} in
  settings (onChange ch h) = of_legacy (u s) ∧
  subscriber_listener ch = Some (of_legacy (u s)) ∧
  closeTabsOnBulkSave (of_legacy (u s)) = None ∧
  closeTabsOnBulkSave (result getPluginSettings st') = Some false.
Proof.
  intros Hn. simpl. unfold onChange, subscriber_listener.
  rewrite lookup_singleton_eq. simpl.
  change (after (Legacy.setSettings u s) st)
    with {| stored := Some (Legacy.toJson (u s));
            set_log := set_log st ++ [Legacy.toJson (u s)] |}.
  simpl. rewrite (safeParse_legacy _ Hn). repeat split.
  rewrite (read_of_valid _ (of_legacy (u s))); [done|].
  by apply safeParse_legacy.
Qed.

Lemma upgrade_read_keeps_legacy_record_witness :
  let st := {| stored := Some (Legacy.toJson Legacy.DEFAULT_SETTINGS);
               set_log := [] |} in
  let r := result getPluginSettings st in
  r = enrich (of_legacy Legacy.DEFAULT_SETTINGS) ∧
  to_legacy r = Legacy.DEFAULT_SETTINGS ∧ autoSave r = false ∧
  closeTabsOnBulkSave r = Some false ∧
  after getPluginSettings st
  = {| stored := Some (toJson r); set_log := [] ++ [toJson r] |}.
Proof.
  apply (upgrade_read_keeps_legacy_record Legacy.DEFAULT_SETTINGS []).
  simpl. done.
Defined.

Lemma legacy_read_of_current_record_witness :
  let st := {| stored := Some (toJson configured); set_log := [] |} in
  Legacy.getPluginSettings st = (to_legacy configured, st).
Proof.
  apply (legacy_read_of_current_record configured []).
  simpl. done.
Defined.

Lemma legacy_write_reaches_listeners_without_preference_witness :
  let st := {| stored := None; set_log := [] |} in
  let st' := after (Legacy.setSettings (λ s, s) Legacy.DEFAULT_SETTINGS) st in
  let ch : gmap string StorageChange :=
    {[ "settings" := {| oldValue := stored st; newValue := stored st' |} ]} in
  settings (onChange ch useState_initial) = of_legacy Legacy.DEFAULT_SETTINGS ∧
  subscriber_listener ch = Some (of_legacy Legacy.DEFAULT_SETTINGS) ∧
  closeTabsOnBulkSave (of_legacy Legacy.DEFAULT_SETTINGS) = None ∧
  closeTabsOnBulkSave (result getPluginSettings st') = Some false.
Proof.
  apply (legacy_write_reaches_listeners_without_preference (λ s, s)
           Legacy.DEFAULT_SETTINGS useState_initial
           {| stored := None; set_log := [] |}).
  simpl. done.
Defined.

(** * Properties of the bulk-save handler *)

Import BulkSave.

Section effects.
Implicit Types (r : Run) (f : BulkSaveStatus → BulkSaveStatus) (e : Effect).

Lemma snapshots_set f r :
  snapshots (setBulkSaveStatus f r) = snapshots r ++ [f (status r)].
Proof. unfold snapshots, setBulkSaveStatus. simpl. by rewrite omap_app. Qed.

Lemma closures_set f r : closures (setBulkSaveStatus f r) = closures r.
Proof.
  unfold closures, setBulkSaveStatus. simpl.
  rewrite filter_app, filter_cons_False; [|done].
  by rewrite filter_nil, app_nil_r.
Qed.

Lemma snapshots_perform e r :
  (∀ s, e ≠ SetBulkSaveStatus s) → snapshots (perform e r) = snapshots r.
Proof.
  intros He. unfold snapshots, perform. simpl. rewrite omap_app. simpl.
  destruct e; try by rewrite app_nil_r. by destruct (He s).
Qed.

Lemma closures_perform e r :
  closures (perform e r) = closures r ++ (if is_closure e then [e] else []).
Proof.
  unfold closures, perform. simpl. rewrite filter_app. f_equal.
  destruct (is_closure e) eqn:E.
  - by rewrite filter_cons_True.
  - rewrite filter_cons_False; [done|]. by rewrite E.
Qed.

Lemma status_mutationOnError message r :
  status (mutationOnError message r) = status r.
Proof. done. Qed.

Lemma snapshots_mutationOnError message r :
  snapshots (mutationOnError message r) = snapshots r.
Proof. unfold mutationOnError. by rewrite snapshots_perform. Qed.

Lemma closures_mutationOnError message r :
  closures (mutationOnError message r) = closures r.
Proof.
  unfold mutationOnError. rewrite closures_perform. simpl.
  by rewrite app_nil_r.
Qed.

Lemma snapshots_set_mutationOnError f message r :
  snapshots (setBulkSaveStatus f (mutationOnError message r))
  = snapshots (setBulkSaveStatus f r).
Proof. by rewrite !snapshots_set, snapshots_mutationOnError. Qed.

Lemma status_set_mutationOnError f message r :
  status (setBulkSaveStatus f (mutationOnError message r))
  = status (setBulkSaveStatus f r).
Proof. done. Qed.

Lemma closures_set_mutationOnError f message r :
  closures (setBulkSaveStatus f (mutationOnError message r))
  = closures (setBulkSaveStatus f r).
Proof. by rewrite !closures_set, closures_mutationOnError. Qed.

Lemma remove_each_trace (tabIds : list Z) r :
  let r' := foldl (λ r tabId, perform (RemoveTab tabId) r) r tabIds in
  status r' = status r ∧ snapshots r' = snapshots r ∧
  closures r' = closures r ++ (RemoveTab <$> tabIds).
Proof.
  revert r. induction tabIds as [|z ids IH]; intros r; simpl.
  - by rewrite app_nil_r.
  - destruct (IH (perform (RemoveTab z) r)) as (-> & -> & ->).
    rewrite snapshots_perform by done. rewrite closures_perform. simpl.
    by rewrite <- app_assoc.
Qed.

Lemma closeTabsHelper_trace closeTabs removeFails (tabIds : list Z) r :
  let r' := closeTabsHelper closeTabs removeFails tabIds r in
  status r' = status r ∧ snapshots r' = snapshots r ∧
  closures r' = closures r ++ closure_requests closeTabs removeFails tabIds.
Proof.
  unfold closeTabsHelper, closure_requests.
  destruct closeTabs; simpl; [|by rewrite app_nil_r].
  case_bool_decide as Hl.
  - destruct tabIds; [|done]. by rewrite app_nil_r.
  - destruct tabIds as [|z ids]; [done|].
    destruct (removeFails (z :: ids)).
    + destruct (remove_each_trace (z :: ids)
                  (perform (RemoveTabs (z :: ids)) r)) as (-> & -> & ->).
      rewrite snapshots_perform by done. rewrite closures_perform. simpl.
      by rewrite <- app_assoc.
    + rewrite snapshots_perform by done. rewrite closures_perform. done.
Qed.
End effects.

(** The failure handler of the mutation changes neither the statuses,
    nor the status cell, nor the closure requests. *)
Ltac skip_mutationOnError :=
  rewrite ?snapshots_set_mutationOnError, ?status_set_mutationOnError,
    ?closures_set_mutationOnError.

Section loop.
Context (createBookmark : nat → Tab → Outcome) (n : nat) (tabs : list Tab).

(** An invariant of the iterations holds after the loop. *)
Lemma loop_invariant (P : nat → Var.t → Run → Prop) v0 r0 :
  (∀ i tab v r, tabs !! i = Some tab → P i v r →
     P (S i) (iteration createBookmark n i tab v r).1
             (iteration createBookmark n i tab v r).2) →
  P 0%nat v0 r0 →
  P (length tabs) (loop createBookmark n 0 tabs v0 r0).1
                  (loop createBookmark n 0 tabs v0 r0).2.
Proof.
  intros Hstep.
  enough (∀ rest seen v r, tabs = seen ++ rest → P (length seen) v r →
            P (length tabs) (loop createBookmark n (length seen) rest v r).1
                            (loop createBookmark n (length seen) rest v r).2)
    as H by (intros; by apply (H tabs [])).
  induction rest as [|tab rest IH]; intros seen v r Htabs HP; simpl.
  - rewrite Htabs, app_nil_r. done.
  - destruct (iteration createBookmark n (length seen) tab v r)
      as [v' r'] eqn:Hit.
    specialize (IH (seen ++ [tab]) v' r').
    rewrite length_app in IH. simpl in IH.
    replace (length seen + 1)%nat with (S (length seen)) in IH by lia.
    apply IH.
    + by rewrite <- app_assoc.
    + specialize (Hstep (length seen) tab v r). rewrite Hit in Hstep.
      apply Hstep; [|done]. rewrite Htabs.
      by rewrite list_lookup_middle.
Qed.
End loop.

Section handler.
Context (allTabs currentWindowTabs : list Tab) (closeTabs : bool)
  (createBookmark : nat → Tab → Outcome) (removeFails : list Z → bool)
  (saveType : SaveType) (status0 : BulkSaveStatus).

Let tabs := tabsToSave saveType allTabs currentWindowTabs.
Let run := handleBulkSave allTabs currentWindowTabs closeTabs createBookmark
             removeFails saveType status0.
Let lp := after_loop createBookmark tabs saveType status0.

Lemma handleBulkSave_nonempty :
  tabs ≠ [] →
  status run = deactivated (status lp.2) ∧
  snapshots run = snapshots lp.2 ++ [deactivated (status lp.2)] ∧
  closures run
  = closures lp.2 ++ closure_requests closeTabs removeFails (Var.savedTabIds lp.1).
Proof.
  intros Hne. subst run lp. unfold handleBulkSave, after_loop.
  fold tabs. rewrite decide_False by (by destruct tabs).
  destruct (loop _ _ _ _ _ _) as [v r]. simpl.
  set (r1 := if decide (0 < length (Var.savedTabIds v))%nat
             then closeTabsHelper closeTabs removeFails (Var.savedTabIds v) r
             else r).
  assert (status r1 = status r ∧ snapshots r1 = snapshots r ∧
          closures r1 = closures r ++
            closure_requests closeTabs removeFails (Var.savedTabIds v))
    as (Hs & Hn & Hc).
  { subst r1. case_decide as Hl.
    - apply closeTabsHelper_trace.
    - destruct (Var.savedTabIds v); [|simpl in Hl; lia].
      unfold closure_requests. destruct closeTabs; by rewrite app_nil_r. }
  destruct closeTabs; simpl;
    rewrite ?snapshots_perform, ?closures_perform, ?snapshots_set,
      ?closures_set by done; simpl; rewrite ?app_nil_r, ?Hs, ?Hn, ?Hc.
  all: repeat split; try done.
  by rewrite app_nil_r.
Qed.

Lemma handleBulkSave_empty :
  tabs = [] →
  run = {| status := status0;
           trace := [SetError (Some "No valid tabs found to save"%string)] |}.
Proof.
  intros He. subst run. unfold handleBulkSave. fold tabs. by rewrite He.
Qed.
End handler.

Section percent.
Open Scope Q_scope.

Lemma percent_nonneg i n : 0 <= percent i n.
Proof.
  unfold percent, Qdiv. apply Qmult_le_0_compat; [|done].
  apply Qmult_le_0_compat.
  - change 0 with (inject_Z 0). rewrite <- Zle_Qle. lia.
  - apply Qinv_le_0_compat. change 0 with (inject_Z 0).
    rewrite <- Zle_Qle. lia.
Qed.

Lemma percent_mono i n : percent i n <= percent (S i) n.
Proof.
  unfold percent, Qdiv. apply Qmult_le_compat_r; [|done].
  apply Qmult_le_compat_r.
  - rewrite <- Zle_Qle. lia.
  - apply Qinv_le_0_compat. change 0 with (inject_Z 0).
    rewrite <- Zle_Qle. lia.
Qed.

Lemma percent_last n : (0 < n)%nat → percent (n - 1) n == 100.
Proof.
  intros Hn. unfold percent, Qdiv.
  replace (n - 1 + 1)%nat with n by lia.
  rewrite Qmult_inv_r; [reflexivity|].
  change 0 with (inject_Z 0). rewrite inject_Z_injective. lia.
Qed.

Lemma StronglySorted_snoc (l : list Q) (q : Q) :
  StronglySorted Qle l → Forall (λ p, p <= q) l → StronglySorted Qle (l ++ [q]).
Proof.
  induction 1 as [|p l Hl IH Hp]; intros Hq; simpl.
  - repeat constructor.
  - apply Forall_cons in Hq as [Hpq Hq]. constructor; [by apply IH|].
    apply Forall_app. split; [done|]. by constructor.
Qed.
End percent.

Section run.
Context (allTabs currentWindowTabs : list Tab)
  (createBookmark : nat → Tab → Outcome) (removeFails : list Z → bool)
  (saveType : SaveType) (status0 : BulkSaveStatus).

Let tabs := tabsToSave saveType allTabs currentWindowTabs.
Let lp := after_loop createBookmark tabs saveType status0.

(** The status cell and the counters agree, and every tab processed
    so far is counted once. *)
Lemma loop_counts :
  completed (status lp.2) = Var.completed lp.1 ∧
  errors (status lp.2) = Var.errors lp.1 ∧
  (Var.completed lp.1 + length (Var.errors lp.1) = length tabs)%nat ∧
  total (status lp.2) = length tabs ∧
  last (snapshots lp.2) = Some (status lp.2).
Proof.
  subst lp. unfold after_loop.
  apply (loop_invariant createBookmark (length tabs) tabs
    (λ i v r, completed (status r) = Var.completed v ∧
              errors (status r) = Var.errors v ∧
              (Var.completed v + length (Var.errors v) = i)%nat ∧
              total (status r) = length tabs ∧
              last (snapshots r) = Some (status r))).
  - intros i tab v r _ (Hc & He & Hi & Ht & Hl). unfold iteration.
    destruct (createBookmark i tab); simpl;
      rewrite snapshots_set, last_snoc, ?length_app; simpl;
      repeat split; try done; try congruence; lia.
  - rewrite snapshots_set, last_snoc. done.
Qed.

Lemma loop_progress_sorted :
  StronglySorted Qle (progress <$> snapshots lp.2) ∧
  Forall (λ s, (progress s <= progress (status lp.2))%Q) (snapshots lp.2).
Proof.
  subst lp. unfold after_loop.
  pose proof (loop_invariant createBookmark (length tabs) tabs
    (λ i v r, StronglySorted Qle (progress <$> snapshots r) ∧
              Forall (λ s, (progress s <= progress (status r))%Q)
                     (snapshots r) ∧
              (progress (status r) <= percent i (length tabs))%Q)) as H.
  simpl in H.
  destruct (H (Var.mk 0 [] [])
              (setBulkSaveStatus (λ _, started (length tabs) saveType)
                 {| status := status0; trace := [] |})) as (A & B & _);
    [| |by split]; clear H.
  - intros i tab v r _ (Hs & Hf & Hp).
    assert (∀ s', (progress (status r) <= progress s')%Q →
              (progress s' <= percent (S i) (length tabs))%Q →
              StronglySorted Qle
                (progress <$> snapshots (setBulkSaveStatus (λ _, s') r)) ∧
              Forall (λ s, (progress s <= progress s')%Q)
                (snapshots (setBulkSaveStatus (λ _, s') r)) ∧
              (progress s' <= percent (S i) (length tabs))%Q) as Hnew.
    { intros s' Hle Hup. rewrite snapshots_set, fmap_app. simpl.
      assert (Forall (λ s, (progress s <= progress s')%Q) (snapshots r)) as Hf'.
      { eapply Forall_impl; [exact Hf|]. intros s Hs'. simpl in Hs'.
        by eapply Qle_trans. }
      split; [|split; [|done]].
      - apply StronglySorted_snoc; [done|]. by apply Forall_fmap.
      - apply Forall_app. split; [done|]. constructor; [|done].
        apply Qle_refl. }
    unfold iteration.
    destruct (createBookmark i tab); simpl.
    + apply (Hnew (mkStatus _ _ _ _ _ _)); simpl; [done|apply percent_mono].
    + skip_mutationOnError.
      apply (Hnew (mkStatus _ _ _ _ _ _)); simpl; [done|apply percent_mono].
    + apply (Hnew (mkStatus _ _ _ _ _ _)); simpl; [apply Qle_refl|].
      eapply Qle_trans; [exact Hp|apply percent_mono].
  - rewrite snapshots_set. simpl. split; [|split].
    + repeat constructor.
    + repeat constructor. apply Qle_refl.
    + apply percent_nonneg.
Qed.

(** When the call for the last tab ends through a callback, the loop
    leaves the percentage computed for the last index. *)
Lemma loop_progress_last tab :
  last tabs = Some tab →
  (∀ message, createBookmark (length tabs - 1) tab ≠ Thrown message) →
  (progress (status lp.2) == 100)%Q.
Proof.
  intros Hlast Hcb. subst lp. unfold after_loop.
  rewrite last_lookup in Hlast.
  assert (0 < length tabs)%nat as Hn.
  { apply lookup_lt_Some in Hlast. lia. }
  replace (Init.Nat.pred (length tabs)) with (length tabs - 1)%nat in Hlast
    by lia.
  enough (∀ t, (0 < length tabs)%nat →
            tabs !! (length tabs - 1)%nat = Some t →
            (∀ message, createBookmark (length tabs - 1) t ≠ Thrown message) →
            progress (status (loop createBookmark (length tabs) 0 tabs
               (Var.mk 0 [] [])
               (setBulkSaveStatus (λ _, started (length tabs) saveType)
                  {| status := status0; trace := [] |})).2)
            = percent (length tabs - 1) (length tabs)) as H.
  { rewrite (H tab Hn Hlast Hcb). by apply percent_last. }
  apply (loop_invariant createBookmark (length tabs) tabs
    (λ i v r, ∀ t, (0 < i)%nat → tabs !! (i - 1)%nat = Some t →
              (∀ message, createBookmark (i - 1) t ≠ Thrown message) →
              progress (status r) = percent (i - 1) (length tabs))).
  - intros i t v r Hi _ t' _. simpl. rewrite Nat.sub_0_r. intros Ht' Hcb'.
    assert (t' = t) as -> by congruence.
    unfold iteration. destruct (createBookmark i t) eqn:E; simpl; try done.
    by destruct (Hcb' message).
  - intros t Hlt. lia.
Qed.

(** The identifiers collected by the loop are those of the tabs whose
    call ended through [onSuccess] and whose identifier is truthy. *)
Lemma loop_saved z :
  z ∈ Var.savedTabIds lp.1 ↔
  ∃ i tab, tabs !! i = Some tab ∧ createBookmark i tab = OnSuccess ∧
           truthy_id tab = Some z.
Proof.
  subst lp. unfold after_loop.
  pose proof (loop_invariant createBookmark (length tabs) tabs
    (λ i v r, ∀ z, z ∈ Var.savedTabIds v ↔
       ∃ j tab, (j < i)%nat ∧ tabs !! j = Some tab ∧
                createBookmark j tab = OnSuccess ∧ truthy_id tab = Some z))
    as H.
  simpl in H. rewrite H; clear H.
  - split.
    + intros (j & tab & _ & ?). by exists j, tab.
    + intros (j & tab & Hj & ?). exists j, tab. split; [|done].
      by apply lookup_lt_Some in Hj.
  - intros i tab v r Htab IH z'.
    assert ((∃ j t, (j < i)%nat ∧ tabs !! j = Some t ∧
               createBookmark j t = OnSuccess ∧ truthy_id t = Some z') ∨
            (createBookmark i tab = OnSuccess ∧ truthy_id tab = Some z') ↔
            ∃ j t, (j < S i)%nat ∧ tabs !! j = Some t ∧
               createBookmark j t = OnSuccess ∧ truthy_id t = Some z') as Hsplit.
    { split.
      - intros [(j & t & Hj & ?)|[? ?]].
        + exists j, t. split; [lia|done].
        + exists i, tab. split; [lia|done].
      - intros (j & t & Hj & Ht & Hs & Hid).
        destruct (decide (j = i)) as [->|Hne].
        + right. assert (t = tab) as -> by congruence. done.
        + left. exists j, t. split; [lia|done]. }
    rewrite <- Hsplit, <- IH. unfold iteration.
    destruct (createBookmark i tab) eqn:E; simpl.
    + destruct (truthy_id tab) as [z0|] eqn:Hid.
      * rewrite elem_of_app, list_elem_of_singleton.
        split; intros [?|?]; auto; [right; split; congruence|].
        right. destruct H as [_ H]. congruence.
      * split; [auto|]. intros [?|[_ ?]]; [done|congruence].
    + split; [auto|]. intros [?|[? _]]; [done|congruence].
    + split; [auto|]. intros [?|[? _]]; [done|congruence].
  - intros z'. simpl. split.
    + by intros ?%elem_of_nil.
    + intros (j & t & Hj & _). lia.
Qed.

Lemma loop_no_closures : closures lp.2 = [].
Proof.
  subst lp. unfold after_loop.
  apply (loop_invariant createBookmark (length tabs) tabs
           (λ i v r, closures r = [])).
  - intros i tab v r _ Hc. unfold iteration.
    destruct (createBookmark i tab); simpl; skip_mutationOnError;
      by rewrite closures_set.
  - by rewrite closures_set.
Qed.
End run.

Section claims.
Context (allTabs currentWindowTabs : list Tab) (closeTabs : bool)
  (createBookmark : nat → Tab → Outcome) (removeFails : list Z → bool)
  (saveType : SaveType) (status0 : BulkSaveStatus).

Let tabs := tabsToSave saveType allTabs currentWindowTabs.
Let run := handleBulkSave allTabs currentWindowTabs closeTabs createBookmark
             removeFails saveType status0.

(** C4: over a non-empty tab list the percentages of the statuses the
    page is given never decrease, whatever the calls do; and when the
    call for the last tab ends through [onSuccess] or [onError], the two
    results a create operation has, the last status shows 100. *)
Theorem progress_monotone_and_complete :
  tabs ≠ [] →
  StronglySorted Qle (progress <$> snapshots run) ∧
  (∀ tab, last tabs = Some tab →
     (∀ message, createBookmark (length tabs - 1) tab ≠ Thrown message) →
     ∃ s, last (snapshots run) = Some s ∧ (progress s == 100)%Q).
Proof.
  intros Hne.
  destruct (handleBulkSave_nonempty allTabs currentWindowTabs closeTabs
              createBookmark removeFails saveType status0 Hne)
    as (Hst & Hsn & _).
  fold tabs run in Hst, Hsn. rewrite Hsn. split.
  - destruct (loop_progress_sorted allTabs currentWindowTabs createBookmark
                saveType status0) as [Hs Hf].
    rewrite fmap_app. apply StronglySorted_snoc; [done|].
    by apply Forall_fmap.
  - intros tab Hlast Hcb. eexists. split; [apply last_snoc|]. simpl.
    by eapply loop_progress_last.
Qed.

(** C7: the last status of a run over a non-empty tab list is inactive
    and satisfies [completed + errors.length = total], with [total] the
    number of tabs, however each call ended. *)
Theorem final_snapshot_conservation :
  tabs ≠ [] →
  ∃ s, last (snapshots run) = Some s ∧ s = status run ∧
       isActive s = false ∧
       (completed s + length (errors s) = total s)%nat ∧
       total s = length tabs.
Proof.
  intros Hne.
  destruct (handleBulkSave_nonempty allTabs currentWindowTabs closeTabs
              createBookmark removeFails saveType status0 Hne)
    as (Hst & Hsn & _).
  fold tabs run in Hst, Hsn.
  destruct (loop_counts allTabs currentWindowTabs createBookmark saveType
              status0) as (Hc & He & Hsum & Ht & _).
  fold tabs in Hc, He, Hsum, Ht.
  eexists. split; [by rewrite Hsn, last_snoc|]. simpl.
  rewrite Hc, He, Ht. done.
Qed.

(** C9: on an empty tab list the handler leaves the status cell as it
    found it, gives the page no status and the host no request, and only
    reports "No valid tabs found to save". *)
Theorem empty_run_rejected :
  tabs = [] →
  status run = status0 ∧ snapshots run = [] ∧ closures run = [] ∧
  trace run = [SetError (Some "No valid tabs found to save"%string)].
Proof.
  intros He. subst run.
  rewrite (handleBulkSave_empty allTabs currentWindowTabs closeTabs
             createBookmark removeFails saveType status0 He).
  done.
Qed.
End claims.

Section closure.
Context (allTabs currentWindowTabs : list Tab)
  (createBookmark : nat → Tab → Outcome) (removeFails : list Z → bool)
  (saveType : SaveType) (status0 : BulkSaveStatus).

Let tabs := tabsToSave saveType allTabs currentWindowTabs.
Let run := handleBulkSave allTabs currentWindowTabs true createBookmark
             removeFails saveType status0.

(** C8: with [closeTabs] set, for tabs whose host identifiers are
    non-zero and pairwise distinct, the closure requests are none when
    nothing was saved and otherwise start with one batched request; its
    identifiers are exactly those of the tabs whose call ended through
    [onSuccess], never that of a tab whose call did not, and the
    one-by-one requests after a failed batch name the same identifiers. *)
Theorem closure_scoped_to_saved_tabs :
  (∀ tab, tab ∈ tabs → id tab ≠ Some 0%Z) → distinct_ids tabs →
  ∃ saved : list Z,
    closures run
    = match saved with
      | [] => []
      | _ => RemoveTabs saved ::
             (if removeFails saved then RemoveTab <$> saved else [])
      end ∧
    (∀ z, z ∈ saved ↔
          ∃ i tab, tabs !! i = Some tab ∧
                   createBookmark i tab = OnSuccess ∧ id tab = Some z) ∧
    (∀ i tab z, tabs !! i = Some tab → createBookmark i tab ≠ OnSuccess →
                id tab = Some z → z ∉ saved) ∧
    ((∀ i tab, tabs !! i = Some tab → createBookmark i tab ≠ OnSuccess) →
     closures run = []).
Proof.
  intros Hnz Hdist.
  set (lp := after_loop createBookmark tabs saveType status0).
  assert (∀ z, z ∈ Var.savedTabIds lp.1 ↔
               ∃ i tab, tabs !! i = Some tab ∧
                        createBookmark i tab = OnSuccess ∧ id tab = Some z)
    as Hsaved.
  { intros z. subst lp tabs. rewrite loop_saved.
    split; intros (i & tab & Hi & Hs & Hid); exists i, tab;
      (split; [done|split; [done|]]).
    - unfold truthy_id in Hid. destruct (id tab) as [z'|]; [|done].
      by case_decide; simplify_eq.
    - unfold truthy_id. rewrite Hid. rewrite decide_False; [done|].
      intros ->. apply (Hnz tab); [|done].
      apply list_elem_of_lookup. by exists i. }
  assert (closures run = closure_requests true removeFails (Var.savedTabIds lp.1))
    as Hcl.
  { destruct (decide (tabs = [])) as [He|Hne].
    - subst run lp.
      rewrite (handleBulkSave_empty allTabs currentWindowTabs true
                 createBookmark removeFails saveType status0 He).
      fold tabs. by rewrite He.
    - destruct (handleBulkSave_nonempty allTabs currentWindowTabs true
                  createBookmark removeFails saveType status0 Hne)
        as (_ & _ & Hc).
      fold tabs run lp in Hc. rewrite Hc. subst lp tabs.
      by rewrite loop_no_closures. }
  exists (Var.savedTabIds lp.1). split; [done|split; [done|split]].
  - intros i tab z Hi Hfail Hid (j & tab' & Hj & Hs & Hid')%Hsaved.
    assert (i = j) as -> by (by eapply Hdist).
    congruence.
  - intros Hnone. rewrite Hcl.
    destruct (Var.savedTabIds lp.1) as [|z ids]; [done|].
    assert (z ∈ z :: ids) as Hz by by left.
    apply Hsaved in Hz as (i & tab & Hi & Hs & _).
    by destruct (Hnone i tab).
Qed.
End closure.

Lemma progress_monotone_and_complete_witness :
  StronglySorted Qle
    (progress <$> snapshots (handleBulkSave [tabA; tabB] [] true first_only
                               (λ _, false) all idle)) ∧
  ∃ s, last (snapshots (handleBulkSave [tabA; tabB] [] true first_only
                          (λ _, false) all idle)) = Some s ∧
       (progress s == 100)%Q.
Proof.
  destruct (progress_monotone_and_complete [tabA; tabB] [] true first_only
              (λ _, false) all idle) as [Hsorted Hlast].
  - simpl. discriminate.
  - split; [exact Hsorted|]. apply (Hlast tabB); [reflexivity|].
    intros message. simpl. discriminate.
Defined.

(** The [catch] clause of the loop records the error and leaves the
    percentage alone: a run whose only call throws ends at 0, with the
    tab counted among the errors. *)
Example thrown_call_keeps_progress :
  status (handleBulkSave [tabA] [] false throwing (λ _, false) all idle)
  = {| isActive := false; progress := 0; total := 1; completed := 0;
       errors := ["A: boom"]; saveType := Some all |}.
Proof. reflexivity. Qed.

Lemma final_snapshot_conservation_witness :
  ∃ s, last (snapshots (handleBulkSave [tabA; tabB] [] true first_only
                          (λ _, false) all idle)) = Some s ∧
       s = status (handleBulkSave [tabA; tabB] [] true first_only
                     (λ _, false) all idle) ∧
       isActive s = false ∧
       (completed s + length (errors s) = total s)%nat ∧
       total s = length (tabsToSave all [tabA; tabB] []).
Proof.
  apply (final_snapshot_conservation [tabA; tabB] [] true first_only
           (λ _, false) all idle).
  simpl. discriminate.
Defined.

Lemma empty_run_rejected_witness :
  status (handleBulkSave [tabA; tabB] [] true first_only (λ _, false)
            window idle) = idle ∧
  snapshots (handleBulkSave [tabA; tabB] [] true first_only (λ _, false)
               window idle) = [] ∧
  closures (handleBulkSave [tabA; tabB] [] true first_only (λ _, false)
              window idle) = [] ∧
  trace (handleBulkSave [tabA; tabB] [] true first_only (λ _, false)
           window idle)
  = [SetError (Some "No valid tabs found to save"%string)].
Proof.
  apply (empty_run_rejected [tabA; tabB] [] true first_only (λ _, false)
           window idle).
  reflexivity.
Defined.

Lemma closure_scoped_to_saved_tabs_witness :
  ∃ saved : list Z,
    closures (handleBulkSave [tabA; tabB] [] true first_only (λ _, false)
                all idle)
    = match saved with
      | [] => []
      | _ => RemoveTabs saved :: (if false then RemoveTab <$> saved else [])
      end ∧
    (∀ z, z ∈ saved ↔
          ∃ i tab, [tabA; tabB] !! i = Some tab ∧
                   first_only i tab = OnSuccess ∧ id tab = Some z) ∧
    (∀ i tab z, [tabA; tabB] !! i = Some tab → first_only i tab ≠ OnSuccess →
                id tab = Some z → z ∉ saved) ∧
    ((∀ i tab, [tabA; tabB] !! i = Some tab → first_only i tab ≠ OnSuccess) →
     closures (handleBulkSave [tabA; tabB] [] true first_only (λ _, false)
                 all idle) = []).
Proof.
  apply (closure_scoped_to_saved_tabs [tabA; tabB] [] first_only (λ _, false)
           all idle).
  - simpl. intros tab Hin.
    apply elem_of_cons in Hin as [->|Hin]; [discriminate|].
    apply elem_of_cons in Hin as [->|Hin]; [discriminate|].
    by apply elem_of_nil in Hin.
  - intros [|[|i]] [|[|j]] ti tj z Hi Hj Hti Htj; simpl in *;
      try done; simplify_eq; simpl in *; congruence.
Defined.

(** * Further properties of the bulk-save page *)

Import BulkSavePage.

Lemma outcomes_snoc createBookmark (tabs : list Tab) (i : nat) (tab : Tab) :
  tabs !! i = Some tab →
  outcomes createBookmark (take (S i) tabs)
  = outcomes createBookmark (take i tabs) ++ [(tab, createBookmark i tab)].
Proof.
  intros Hi. unfold outcomes. rewrite (take_S_r _ _ _ Hi), imap_app.
  simpl. rewrite length_take_le, Nat.add_0_r; [done|].
  apply lookup_lt_Some in Hi. lia.
Qed.

Section loop_result.
Context (createBookmark : nat → Tab → Outcome) (tabs : list Tab)
  (saveType : SaveType) (status0 : BulkSaveStatus).

Let lp := after_loop createBookmark tabs saveType status0.

(** The counters of the loop are the number of calls that succeeded and
    the messages of the calls that did not, in tab order; the messages it
    gives the page are those of the failed calls, and it never schedules
    the closing of the window. *)
Lemma loop_result :
  Var.completed lp.1 = successes createBookmark tabs ∧
  Var.errors lp.1 = failures createBookmark tabs ∧
  reported lp.2 = wentWrong createBookmark tabs ∧
  CloseWindowLater ∉ trace lp.2.
Proof.
  subst lp. unfold after_loop.
  pose proof (loop_invariant createBookmark (length tabs) tabs
    (λ i v r, Var.completed v = successes createBookmark (take i tabs) ∧
              Var.errors v = failures createBookmark (take i tabs) ∧
              reported r = wentWrong createBookmark (take i tabs) ∧
              CloseWindowLater ∉ trace r)) as H.
  simpl in H. rewrite firstn_all in H. apply H; clear H.
  - intros i tab v r Hi (Hc & He & Hr & Hw).
    unfold successes, failures, wentWrong.
    rewrite (outcomes_snoc _ _ _ _ Hi).
    rewrite filter_app, !omap_app, length_app.
    fold (successes createBookmark (take i tabs)).
    fold (failures createBookmark (take i tabs)).
    fold (wentWrong createBookmark (take i tabs)).
    rewrite <- Hc, <- He, <- Hr. unfold iteration, reported.
    destruct (createBookmark i tab) eqn:E; simpl;
      unfold setBulkSaveStatus, mutationOnError, perform; simpl;
      rewrite ?omap_app; simpl;
      rewrite ?filter_cons_True, ?filter_cons_False, ?filter_nil by (simpl; done);
      simpl; rewrite ?app_nil_r, <- ?app_assoc;
      (repeat split; [try done; lia ..|]);
      rewrite ?elem_of_app, ?elem_of_cons, ?elem_of_nil;
      intuition discriminate.
  - unfold reported, wentWrong, setBulkSaveStatus. simpl.
    repeat split; try done.
    rewrite elem_of_cons, elem_of_nil. intuition discriminate.
Qed.

(** The effects of the loop, exactly: the status that opens the run, then
    for each tab what its call makes the page see. *)
Lemma loop_trace :
  length (snapshots lp.2) = S (length tabs) ∧
  trace lp.2
  = SetBulkSaveStatus (started (length tabs) saveType)
    :: concat (zip_with callEffects (snd <$> outcomes createBookmark tabs)
                 (drop 1 (snapshots lp.2))).
Proof.
  subst lp. unfold after_loop.
  pose proof (loop_invariant createBookmark (length tabs) tabs
    (λ i v r, length (snapshots r) = S i ∧
       trace r
       = SetBulkSaveStatus (started (length tabs) saveType)
         :: concat (zip_with callEffects
                      (snd <$> outcomes createBookmark (take i tabs))
                      (drop 1 (snapshots r))))) as H.
  simpl in H. rewrite firstn_all in H. apply H; clear H.
  - intros i tab v r Hi (Hlen & Ht).
    assert (length (snd <$> outcomes createBookmark (take i tabs))
            = length (drop 1 (snapshots r))) as Hsame.
    { rewrite length_fmap, length_drop, Hlen. unfold outcomes.
      rewrite length_imap, length_take_le; [lia|].
      apply lookup_lt_Some in Hi. lia. }
    assert (drop 1 (snapshots r ++ [status r]) = drop 1 (snapshots r) ++ [status r])
      as Hdrop.
    { destruct (snapshots r); [simpl in Hlen; lia|done]. }
    assert (∀ f o, o = createBookmark i tab →
              length (snapshots (setBulkSaveStatus f r)) = S (S i) ∧
              concat (zip_with callEffects
                        (snd <$> outcomes createBookmark (take (S i) tabs))
                        (drop 1 (snapshots (setBulkSaveStatus f r))))
              = concat (zip_with callEffects
                          (snd <$> outcomes createBookmark (take i tabs))
                          (drop 1 (snapshots r)))
                ++ callEffects o (f (status r))) as Hstep.
    { intros f o ->. rewrite snapshots_set, length_app, Hlen. simpl.
      split; [lia|].
      rewrite (outcomes_snoc _ _ _ _ Hi), fmap_app. simpl.
      assert (drop 1 (snapshots r ++ [f (status r)])
              = drop 1 (snapshots r) ++ [f (status r)]) as ->.
      { destruct (snapshots r); [simpl in Hlen; lia|done]. }
      rewrite zip_with_app by done. rewrite concat_app. simpl.
      by rewrite app_nil_r. }
    unfold iteration.
    destruct (createBookmark i tab) eqn:E; simpl; skip_mutationOnError;
      match goal with
      | |- context [setBulkSaveStatus ?f _] =>
          destruct (Hstep f _ eq_refl) as (-> & ->)
      end;
      (split; [done|]);
      unfold setBulkSaveStatus, mutationOnError, perform; simpl;
      rewrite Ht, <- ?app_assoc; done.
  - rewrite snapshots_set. done.
Qed.
End loop_result.

Section trace.
Implicit Types (r : Run) (e : Effect).

Lemma trace_remove_each (tabIds : list Z) r :
  trace (foldl (λ r tabId, perform (RemoveTab tabId) r) r tabIds)
  = trace r ++ (RemoveTab <$> tabIds).
Proof.
  revert r. induction tabIds as [|z ids IH]; intros r; simpl.
  - by rewrite app_nil_r.
  - rewrite IH. unfold perform. simpl. by rewrite <- app_assoc.
Qed.

Lemma trace_closeTabsHelper closeTabs removeFails (tabIds : list Z) r :
  trace (closeTabsHelper closeTabs removeFails tabIds r)
  = trace r ++ closure_requests closeTabs removeFails tabIds.
Proof.
  unfold closeTabsHelper, closure_requests.
  destruct closeTabs; simpl; [|by rewrite app_nil_r].
  case_bool_decide as Hl.
  - destruct tabIds; [|done]. by rewrite app_nil_r.
  - destruct tabIds as [|z ids]; [done|].
    destruct (removeFails (z :: ids)); [|done].
    rewrite trace_remove_each. unfold perform. simpl.
    by rewrite <- app_assoc.
Qed.
End trace.

Section run_shape.
Context (allTabs currentWindowTabs : list Tab) (closeTabs : bool)
  (createBookmark : nat → Tab → Outcome) (removeFails : list Z → bool)
  (saveType : SaveType) (status0 : BulkSaveStatus).

Let tabs := tabsToSave saveType allTabs currentWindowTabs.
Let run := handleBulkSave allTabs currentWindowTabs closeTabs createBookmark
             removeFails saveType status0.
Let lp := after_loop createBookmark tabs saveType status0.

Lemma handleBulkSave_trace :
  tabs ≠ [] →
  trace run
  = trace lp.2
    ++ closure_requests closeTabs removeFails (Var.savedTabIds lp.1)
    ++ [SetBulkSaveStatus (deactivated (status lp.2));
        SetError (summary (Var.completed lp.1) (length tabs))]
    ++ (if closeTabs then [CloseWindowLater] else []).
Proof.
  intros Hne. subst run lp. unfold handleBulkSave, after_loop.
  fold tabs. rewrite decide_False by (by destruct tabs).
  destruct (loop _ _ _ _ _ _) as [v r]. simpl.
  set (r1 := if decide (0 < length (Var.savedTabIds v))%nat
             then closeTabsHelper closeTabs removeFails (Var.savedTabIds v) r
             else r).
  assert (status r1 = status r ∧
          trace r1 = trace r ++
            closure_requests closeTabs removeFails (Var.savedTabIds v))
    as (Hs & Ht).
  { subst r1. case_decide as Hl.
    - split; [apply closeTabsHelper_trace|apply trace_closeTabsHelper].
    - destruct (Var.savedTabIds v); [|simpl in Hl; lia].
      unfold closure_requests. destruct closeTabs; by rewrite app_nil_r. }
  destruct closeTabs; unfold perform, setBulkSaveStatus; simpl;
    rewrite Hs, Ht, <- ?app_assoc; simpl; by rewrite ?app_nil_r.
Qed.

(** Every status of the loop accounts for as many tabs as its index,
    carries the total and the save type of the run, and is active. *)
Lemma loop_snapshots_shape :
  length (snapshots lp.2) = S (length tabs) ∧
  (∀ k s, snapshots lp.2 !! k = Some s →
     (completed s + length (errors s) = k)%nat ∧ total s = length tabs ∧
     isActive s = true ∧ BulkSave.saveType s = Some saveType).
Proof.
  subst lp. unfold after_loop.
  pose proof (loop_invariant createBookmark (length tabs) tabs
    (λ i v r, length (snapshots r) = S i ∧
       (∀ k s, snapshots r !! k = Some s →
          (completed s + length (errors s) = k)%nat ∧ total s = length tabs ∧
          isActive s = true ∧ BulkSave.saveType s = Some saveType) ∧
       last (snapshots r) = Some (status r) ∧
       completed (status r) = Var.completed v)) as H.
  simpl in H.
  destruct (H (Var.mk 0 [] [])
              (setBulkSaveStatus (λ _, started (length tabs) saveType)
                 {| status := status0; trace := [] |})) as (A & B & _);
    [| |by split]; clear H.
  - intros i tab v r _ (Hlen & Hall & Hlast & Hcv).
    assert (snapshots r !! i = Some (status r)) as Hcur.
    { rewrite last_lookup, Hlen in Hlast. done. }
    destruct (Hall _ _ Hcur) as (Hsum & Htot & Hact & Hty).
    assert (∀ f c',
              (completed (f (status r)) + length (errors (f (status r))) = S i)%nat →
              total (f (status r)) = length tabs →
              isActive (f (status r)) = true →
              BulkSave.saveType (f (status r)) = Some saveType →
              completed (f (status r)) = c' →
              length (snapshots (setBulkSaveStatus f r)) = S (S i) ∧
              (∀ k s, snapshots (setBulkSaveStatus f r) !! k = Some s →
                 (completed s + length (errors s) = k)%nat ∧
                 total s = length tabs ∧ isActive s = true ∧
                 BulkSave.saveType s = Some saveType) ∧
              last (snapshots (setBulkSaveStatus f r))
              = Some (status (setBulkSaveStatus f r)) ∧
              completed (status (setBulkSaveStatus f r)) = c') as Hnew.
    { intros f c' ? ? ? ? ?. rewrite snapshots_set, length_app, Hlen. simpl.
      split; [lia|]. split; [|split; [by rewrite last_snoc|done]].
      intros k s Hk. apply lookup_app_Some in Hk as [Hk|[Hge Hk]]; [by apply Hall|].
      rewrite Hlen in Hge, Hk. destruct (k - S i)%nat eqn:Ek; [|done].
      simpl in Hk. injection Hk as <-. assert (k = S i) as -> by lia. done. }
    unfold iteration.
    destruct (createBookmark i tab); simpl; skip_mutationOnError;
      apply Hnew; simpl; rewrite ?length_app; simpl; try done; lia.
  - rewrite snapshots_set. simpl. split; [done|]. split; [|done].
    intros [|k] s Hk; [|done]. simpl in Hk. by injection Hk as <-.
Qed.

(** Between one status and the next the count of saved tabs does not
    go down and the error list only grows at its end. *)
Lemma loop_snapshots_grow :
  ∀ k s s', snapshots lp.2 !! k = Some s → snapshots lp.2 !! S k = Some s' →
    (completed s ≤ completed s')%nat ∧ errors s `prefix_of` errors s'.
Proof.
  subst lp. unfold after_loop.
  pose proof (loop_invariant createBookmark (length tabs) tabs
    (λ i v r, (∀ k s s', snapshots r !! k = Some s →
                 snapshots r !! S k = Some s' →
                 (completed s ≤ completed s')%nat ∧
                 errors s `prefix_of` errors s') ∧
              last (snapshots r) = Some (status r) ∧
              completed (status r) = Var.completed v)) as H.
  simpl in H.
  destruct (H (Var.mk 0 [] [])
              (setBulkSaveStatus (λ _, started (length tabs) saveType)
                 {| status := status0; trace := [] |})) as (A & _);
    [| |done]; clear H.
  - intros i tab v r _ (Hadj & Hlast & Hc).
    assert (∀ s', (completed (status r) ≤ completed s')%nat →
              errors (status r) `prefix_of` errors s' →
              (∀ k s s'', snapshots (setBulkSaveStatus (λ _, s') r) !! k = Some s →
                 snapshots (setBulkSaveStatus (λ _, s') r) !! S k = Some s'' →
                 (completed s ≤ completed s'')%nat ∧
                 errors s `prefix_of` errors s'') ∧
              last (snapshots (setBulkSaveStatus (λ _, s') r))
              = Some (status (setBulkSaveStatus (λ _, s') r))) as Hnew.
    { intros s' Hle Hpre. rewrite snapshots_set.
      split; [|by rewrite last_snoc].
      intros k s s'' Hk HSk.
      rewrite last_lookup in Hlast.
      apply lookup_app_Some in HSk as [HSk|[Hge HSk]].
      - apply (Hadj k); [|done].
        rewrite lookup_app_l in Hk; [done|]. apply lookup_lt_Some in HSk. lia.
      - destruct (S k - length (snapshots r))%nat eqn:Ek; [|done].
        simpl in HSk. injection HSk as <-.
        rewrite lookup_app_l in Hk by lia.
        replace (Init.Nat.pred (length (snapshots r))) with k in Hlast by lia.
        assert (s = status r) as -> by congruence. done. }
    unfold iteration.
    destruct (createBookmark i tab); simpl.
    + destruct (Hnew (mkStatus (isActive (status r))
                (percent i (length tabs)) (total (status r))
                (S (Var.completed v)) (errors (status r))
                (BulkSave.saveType (status r)))) as [? ?]; simpl; [lia|done|].
      done.
    + skip_mutationOnError.
      destruct (Hnew (mkStatus (isActive (status r))
                (percent i (length tabs)) (total (status r))
                (completed (status r))
                (errors (status r) ++ [label tab +:+ ": " +:+ message])
                (BulkSave.saveType (status r)))) as [? ?]; simpl;
        [lia|by apply prefix_app_r|]. done.
    + destruct (Hnew (mkStatus (isActive (status r))
                (progress (status r)) (total (status r))
                (completed (status r))
                (errors (status r) ++
                   [label tab +:+ ": " +:+ default "Unknown error" message])
                (BulkSave.saveType (status r)))) as [? ?]; simpl;
        [lia|by apply prefix_app_r|]. done.
  - rewrite snapshots_set. simpl. split; [|done].
    intros [|k] s s' Hk HSk; done.
Qed.
End run_shape.




Section run_claims.
Context (allTabs currentWindowTabs : list Tab) (closeTabs : bool)
  (createBookmark : nat → Tab → Outcome) (removeFails : list Z → bool)
  (saveType : SaveType) (status0 : BulkSaveStatus).

Let tabs := tabsToSave saveType allTabs currentWindowTabs.
Let run := handleBulkSave allTabs currentWindowTabs closeTabs createBookmark
             removeFails saveType status0.

(** X15: the effects of a run over a non-empty list, in order: the
    status that opens the run; then, call by call, the status that
    follows the call, preceded for a call that ended through [onError] by
    the [setError] of the mutation's own handler; then the closure
    requests, the final status, the summary [setError], and the
    window-close timer when [closeTabs] is set. *)
Theorem run_effects_in_order :
  tabs ≠ [] →
  trace run
  = SetBulkSaveStatus (started (length tabs) saveType)
    :: concat (zip_with callEffects (snd <$> outcomes createBookmark tabs)
                 (take (length tabs) (drop 1 (snapshots run))))
    ++ closures run
    ++ [SetBulkSaveStatus (status run);
        SetError (summary (successes createBookmark tabs) (length tabs))]
    ++ (if closeTabs then [CloseWindowLater] else []).
Proof.
  intros Hne.
  destruct (handleBulkSave_nonempty allTabs currentWindowTabs closeTabs
              createBookmark removeFails saveType status0 Hne)
    as (Hst & Hsn & Hcl).
  pose proof (handleBulkSave_trace allTabs currentWindowTabs closeTabs
                createBookmark removeFails saveType status0 Hne) as Htr.
  destruct (loop_result createBookmark tabs saveType status0) as (Hc & _).
  destruct (loop_trace createBookmark tabs saveType status0) as (Hlen & Hlt).
  pose proof (loop_no_closures allTabs currentWindowTabs createBookmark
                saveType status0) as Hnc.
  fold tabs run in Hst, Hsn, Hcl, Htr, Hnc.
  rewrite Htr, Hsn, Hcl, Hst, Hnc, Hc. simpl.
  rewrite drop_app_le by (rewrite Hlen; lia).
  rewrite take_app_length' by (rewrite length_drop, Hlen; lia).
  by rewrite Hlt at 1.
Qed.

Lemma handleBulkSave_snapshots :
  tabs ≠ [] →
  length (snapshots run) = (length tabs + 2)%nat ∧
  ∀ k s, snapshots run !! k = Some s →
    total s = length tabs ∧ BulkSave.saveType s = Some saveType ∧
    (isActive s = true ↔ (k ≤ length tabs)%nat) ∧
    (completed s + length (errors s) = min k (length tabs))%nat.
Proof.
  intros Hne.
  destruct (handleBulkSave_nonempty allTabs currentWindowTabs closeTabs
              createBookmark removeFails saveType status0 Hne)
    as (_ & Hsn & _).
  destruct (loop_snapshots_shape allTabs currentWindowTabs createBookmark
              saveType status0) as (Hlen & Hall).
  destruct (loop_counts allTabs currentWindowTabs createBookmark saveType
              status0) as (Hc & He & Hsum & Ht & Hlast).
  fold tabs run in Hsn, Hlen, Hall, Hc, He, Hsum, Ht, Hlast.
  rewrite Hsn, length_app, Hlen. simpl. split; [lia|].
  intros k s [Hk|[Hge Hk]]%lookup_app_Some.
  - destruct (Hall k s Hk) as (? & ? & ? & ?).
    apply lookup_lt_Some in Hk. rewrite Hlen in Hk.
    repeat split; try done; lia.
  - rewrite Hlen in Hge, Hk. destruct (k - S (length tabs))%nat eqn:Ek; [|done].
    simpl in Hk. injection Hk as <-. simpl.
    rewrite last_lookup, Hlen in Hlast. simpl in Hlast.
    destruct (Hall _ _ Hlast) as (_ & _ & _ & Hty).
    rewrite Hc, He, Hsum. repeat split; try done; lia.
Qed.

(** X16: a run over [n > 0] tabs gives the page [n + 2] statuses.  Each
    carries [total = n] and the save type of the run; the status at
    index [k] is active exactly when [k <= n], and accounts for
    [min k n] tabs between [completed] and [errors]. *)
Theorem run_snapshots_shape :
  tabs ≠ [] →
  length (snapshots run) = (length tabs + 2)%nat ∧
  ∀ k s, snapshots run !! k = Some s →
    total s = length tabs ∧ BulkSave.saveType s = Some saveType ∧
    (isActive s = true ↔ (k ≤ length tabs)%nat) ∧
    (completed s + length (errors s) = min k (length tabs))%nat.
Proof. exact handleBulkSave_snapshots. Qed.

(** X17: from one status to the next [completed] never decreases and
    [errors] only grows at its end. *)
Theorem run_snapshots_grow k s s' :
  snapshots run !! k = Some s → snapshots run !! S k = Some s' →
  (completed s ≤ completed s')%nat ∧ errors s `prefix_of` errors s'.
Proof.
  intros Hk HSk.
  destruct (decide (tabs = [])) as [He|Hne].
  { subst run. rewrite (handleBulkSave_empty allTabs currentWindowTabs
      closeTabs createBookmark removeFails saveType status0 He) in Hk. done. }
  destruct (handleBulkSave_nonempty allTabs currentWindowTabs closeTabs
              createBookmark removeFails saveType status0 Hne)
    as (_ & Hsn & _).
  pose proof (loop_snapshots_grow allTabs currentWindowTabs createBookmark
                saveType status0) as Hgrow.
  destruct (loop_counts allTabs currentWindowTabs createBookmark saveType
              status0) as (_ & _ & _ & _ & Hlast).
  fold tabs run in Hsn, Hgrow, Hlast. rewrite Hsn in Hk, HSk.
  apply lookup_app_Some in HSk as [HSk|[Hge HSk]].
  - apply (Hgrow k); [|done]. rewrite lookup_app_l in Hk; [done|].
    apply lookup_lt_Some in HSk. lia.
  - destruct (S k - length (snapshots (after_loop createBookmark tabs saveType
                status0).2))%nat eqn:Ek; [|done].
    simpl in HSk. injection HSk as <-. rewrite lookup_app_l in Hk by lia.
    rewrite last_lookup in Hlast.
    replace (Init.Nat.pred (length (snapshots (after_loop createBookmark tabs
               saveType status0).2))) with k in Hlast by lia.
    assert (s = status (after_loop createBookmark tabs saveType status0).2)
      as -> by congruence.
    done.
Qed.



(** X20: without the close preference a run closes no tab and sets no
    window-close timer, whatever was saved. *)
Theorem run_without_close_preference :
  closeTabs = false →
  closures run = [] ∧ CloseWindowLater ∉ trace run.
Proof.
  intros Hct. destruct (decide (tabs = [])) as [He|Hne].
  { subst run. rewrite (handleBulkSave_empty allTabs currentWindowTabs
      closeTabs createBookmark removeFails saveType status0 He).
    split; [done|]. intros [?|?%elem_of_nil]%elem_of_cons; done. }
  destruct (handleBulkSave_nonempty allTabs currentWindowTabs closeTabs
              createBookmark removeFails saveType status0 Hne)
    as (_ & _ & Hcl).
  pose proof (handleBulkSave_trace allTabs currentWindowTabs closeTabs
                createBookmark removeFails saveType status0 Hne) as Htr.
  destruct (loop_result createBookmark tabs saveType status0)
    as (_ & _ & _ & Hlt).
  pose proof (loop_no_closures allTabs currentWindowTabs createBookmark
                saveType status0) as Hnc.
  fold tabs run in Hcl, Htr, Hnc. rewrite Hcl, Htr, Hnc, Hct. simpl.
  split; [done|].
  intros [?|Hin]%elem_of_app; [done|].
  apply elem_of_cons in Hin as [?|Hin]; [done|].
  apply elem_of_cons in Hin as [?|Hin]; [done|].
  by apply elem_of_nil in Hin.
Qed.

(** X21: with the close preference the last effect of a run over a
    non-empty list is the window-close timer, also when no tab was
    saved or closed. *)
Theorem window_close_follows_preference_only :
  tabs ≠ [] → closeTabs = true → last (trace run) = Some CloseWindowLater.
Proof.
  intros Hne Hct.
  pose proof (handleBulkSave_trace allTabs currentWindowTabs closeTabs
                createBookmark removeFails saveType status0 Hne) as Htr.
  fold tabs run in Htr. rewrite Htr, Hct.
  rewrite !app_assoc. apply last_snoc.
Qed.
End run_claims.

Lemma prefix_head (c c' : Ascii.ascii) (s u : string) :
  String.prefix (String c s) (String c' u) = true → c = c'.
Proof. simpl. by destruct (Ascii.ascii_dec c c'). Qed.

(** A URL with an http scheme has none of the internal schemes. *)
Lemma http_not_internal (u : string) :
  String.prefix "http://" u = true ∨ String.prefix "https://" u = true →
  negb (String.prefix "chrome://" u) = true ∧
  negb (String.prefix "chrome-extension://" u) = true ∧
  negb (String.prefix "moz-extension://" u) = true.
Proof.
  destruct u as [|c u]; [by intros [|]|].
  intros [Hp|Hp]; apply prefix_head in Hp as <-; done.
Qed.

Lemma valid_tab_iff (tab : Tab) :
  isValidTab tab = true ↔
  ∃ u, url tab = Some u ∧
       (String.prefix "http://" u = true ∨ String.prefix "https://" u = true).
Proof.
  unfold isValidTab. destruct (url tab) as [u|]; [|split; [done|by intros (? & ? & _)]].
  split.
  - intros H. exists u. split; [done|].
    repeat (apply andb_prop in H as [H ?]). by apply orb_prop.
  - intros (u' & [= <-] & Hp).
    rewrite !andb_true_iff, orb_true_iff. split; [|by apply http_not_internal].
    split; [|by apply http_not_internal]. split; [|by apply http_not_internal].
    split; [|done]. destruct u; [by destruct Hp|done].
Qed.

(** X22: the tabs [prepare] keeps are exactly those whose URL is defined
    and starts with "http://" or "https://"; the three excluded schemes
    and the emptiness test never remove a tab that passed the scheme
    test. *)
Theorem valid_tabs_have_http_urls (tabs : list Tab) (tab : Tab) :
  tab ∈ validTabs tabs ↔
  tab ∈ tabs ∧
  ∃ u, url tab = Some u ∧
       (String.prefix "http://" u = true ∨ String.prefix "https://" u = true).
Proof.
  unfold validTabs. rewrite list_elem_of_filter, valid_tab_iff.
  split; intros [? ?]; done.
Qed.

Section page.
Context (allTabs currentWindowTabs : list Tab) (closeTabs : bool)
  (createBookmark : nat → Tab → Outcome) (removeFails : list Z → bool)
  (saveType : SaveType) (status0 : BulkSaveStatus).

Let tabs := tabsToSave saveType allTabs currentWindowTabs.
Let run := handleBulkSave allTabs currentWindowTabs closeTabs createBookmark
             removeFails saveType status0.

(** X23: once the settings are loaded, the component shows the progress
    view for every status of the loop and the completion view for the
    final status of a run over a non-empty list. *)
Theorem view_during_and_after_run :
  tabs ≠ [] →
  render false (status run) = Complete ∧
  ∀ k s, (k ≤ length tabs)%nat → snapshots run !! k = Some s →
         render false s = Saving.
Proof.
  intros Hne.
  destruct (handleBulkSave_snapshots allTabs currentWindowTabs closeTabs
              createBookmark removeFails saveType status0 Hne) as (Hlen & Hall).
  destruct (handleBulkSave_nonempty allTabs currentWindowTabs closeTabs
              createBookmark removeFails saveType status0 Hne) as (Hst & _ & _).
  destruct (loop_counts allTabs currentWindowTabs createBookmark saveType
              status0) as (_ & _ & _ & Htot & _).
  fold tabs run in Hlen, Hall, Hst, Htot. unfold render. split.
  - rewrite Hst. simpl. rewrite bool_decide_true; [done|].
    rewrite Htot. destruct tabs; [done|simpl; lia].
  - intros k s Hk Hs. destruct (Hall k s Hs) as (_ & _ & Hiff & _).
    by rewrite (proj2 Hiff Hk).
Qed.
End page.

Section notices.
Context (allTabs currentWindowTabs : list Tab) (closeTabs : bool)
  (createBookmark : nat → Tab → Outcome) (removeFails : list Z → bool)
  (saveType : SaveType) (status0 : BulkSaveStatus).

Let tabs := tabsToSave saveType allTabs currentWindowTabs.
Let run := handleBulkSave allTabs currentWindowTabs closeTabs createBookmark
             removeFails saveType status0.
Let lp := after_loop createBookmark tabs saveType status0.



(** X25: the completion view lists at most three errors, the first ones
    in tab order, and the listed errors together with the count of the
    "and N more" line are all the tabs that were not saved; the line is
    absent exactly when at most three failed. *)
Theorem shown_and_hidden_errors :
  tabs ≠ [] →
  shownErrors (status run) `prefix_of` failures createBookmark tabs ∧
  (length (shownErrors (status run)) ≤ 3)%nat ∧
  (length (shownErrors (status run)) + default 0%nat (moreErrors (status run))
   = length tabs - successes createBookmark tabs)%nat ∧
  (moreErrors (status run) = None ↔
   (length tabs - successes createBookmark tabs ≤ 3)%nat).
Proof.
  intros Hne.
  destruct (handleBulkSave_nonempty allTabs currentWindowTabs closeTabs
              createBookmark removeFails saveType status0 Hne)
    as (Hst & _ & _).
  destruct (loop_result createBookmark tabs saveType status0) as (Hc & He & _).
  destruct (loop_counts allTabs currentWindowTabs createBookmark saveType
              status0) as (_ & He' & Hsum & _).
  fold tabs run lp in Hst, Hc, He, He', Hsum.
  unfold shownErrors, moreErrors. rewrite Hst. simpl. rewrite He', He.
  rewrite Hc, He in Hsum.
  split; [apply prefix_take|]. rewrite !length_take.
  split; [lia|]. case_bool_decide as Hlong.
  - rewrite Nat.min_l by lia. simpl.
    split; [lia|]. split; [done|]. intros Hle. exfalso. lia.
  - rewrite Nat.min_r by lia. simpl.
    split; [lia|]. split; [|done]. intros _. lia.
Qed.
End notices.



Lemma run_effects_in_order_witness :
  let run := handleBulkSave [tabA; tabB] [] true first_only (λ _, false)
               all idle in
  trace run
  = SetBulkSaveStatus (started 2 all)
    :: concat (zip_with callEffects (snd <$> outcomes first_only [tabA; tabB])
                 (take 2 (drop 1 (snapshots run))))
    ++ closures run
    ++ [SetBulkSaveStatus (status run);
        SetError (summary (successes first_only [tabA; tabB]) 2)]
    ++ [CloseWindowLater].
Proof.
  apply (run_effects_in_order [tabA; tabB] [] true first_only (λ _, false)
           all idle).
  simpl. discriminate.
Defined.

Lemma run_snapshots_shape_witness :
  let run := handleBulkSave [tabA; tabB] [] true first_only (λ _, false)
               all idle in
  length (snapshots run) = 4%nat ∧
  ∀ k s, snapshots run !! k = Some s →
    total s = 2%nat ∧ BulkSave.saveType s = Some all ∧
    (isActive s = true ↔ (k ≤ 2)%nat) ∧
    (completed s + length (errors s) = min k 2)%nat.
Proof.
  apply (run_snapshots_shape [tabA; tabB] [] true first_only (λ _, false)
           all idle).
  simpl. discriminate.
Defined.

Lemma run_snapshots_grow_witness :
  (completed (started 2 all) ≤ 1)%nat ∧
  errors (started 2 all) `prefix_of` [].
Proof.
  apply (run_snapshots_grow [tabA; tabB] [] true first_only (λ _, false)
           all idle 0 (started 2 all)
           {| isActive := true; progress := percent 0 2; total := 2;
              completed := 1; errors := []; saveType := Some all |}).
  - reflexivity.
  - reflexivity.
Defined.



Lemma run_without_close_preference_witness :
  let run := handleBulkSave [tabA; tabB] [] false first_only (λ _, false)
               all idle in
  closures run = [] ∧ CloseWindowLater ∉ trace run.
Proof.
  apply (run_without_close_preference [tabA; tabB] [] false first_only
           (λ _, false) all idle).
  reflexivity.
Defined.

Lemma window_close_follows_preference_only_witness :
  last (trace (handleBulkSave [tabA; tabB] [] true throwing (λ _, false)
                 all idle))
  = Some CloseWindowLater.
Proof.
  apply (window_close_follows_preference_only [tabA; tabB] [] true throwing
           (λ _, false) all idle).
  - simpl. discriminate.
  - reflexivity.
Defined.

Lemma view_during_and_after_run_witness :
  let run := handleBulkSave [tabA; tabB] [] true first_only (λ _, false)
               all idle in
  render false (status run) = Complete ∧
  ∀ k s, (k ≤ 2)%nat → snapshots run !! k = Some s → render false s = Saving.
Proof.
  apply (view_during_and_after_run [tabA; tabB] [] true first_only
           (λ _, false) all idle).
  simpl. discriminate.
Defined.


Lemma shown_and_hidden_errors_witness :
  let run := handleBulkSave [tabA; tabB] [] true first_only (λ _, false)
               all idle in
  shownErrors (status run) `prefix_of` failures first_only [tabA; tabB] ∧
  (length (shownErrors (status run)) ≤ 3)%nat ∧
  (length (shownErrors (status run)) + default 0%nat (moreErrors (status run))
   = 2 - successes first_only [tabA; tabB])%nat ∧
  (moreErrors (status run) = None ↔
   (2 - successes first_only [tabA; tabB] ≤ 3)%nat).
Proof.
  apply (shown_and_hidden_errors [tabA; tabB] [] true first_only (λ _, false)
           all idle).
  simpl. discriminate.
Defined.

